(** * StarShooter, [centered-on-asteroid/utils.py]: dataset preparation

    A shallow embedding of [get_dataframe], [get_dataset] and [get_loaders],
    together with the slice of pandas, PIL and torch they call.

    - A CSV table is the list of its rows; the file system is a function
      from paths to what opening the path gives.
    - A tensor is its shape and its elements in row-major order.  The
      elements of an image tensor are kept as the 8-bit intensity [k] of the
      pixel, standing for the float32 value [k/255] that [ToTensor] stores.
    - A function that prints returns the lines it printed next to its
      value; a raised exception ends the run and keeps what was printed
      before it. *)

From Stdlib Require Import String Ascii List ZArith QArith Lia Bool Arith.
From Stdlib Require Import DecimalString Sorted Permutation OrderedTypeEx RelationClasses.
From Stdlib Require Import Qabs Qround Lqa SpecFloat.
Import ListNotations.

Local Open Scope string_scope.
Local Open Scope list_scope.
Local Open Scope nat_scope.

(** ** Exceptions and the two effect layers *)

Inductive exn : Type :=
| FileNotFoundError (path : string)
| ParserError (path : string)
| UnidentifiedImageError (path : string)
| RuntimeError (msg : string)
| IndexError (msg : string)
| AssertionError (msg : string)
| ValueError (msg : string)
| TypeError (msg : string)
| OverflowError (msg : string).

Inductive result (A : Type) : Type :=
| Ok (a : A)
| Raise (e : exn).

Arguments Ok {A} a.
Arguments Raise {A} e.

Definition rbind {A B : Type} (r : result A) (k : A -> result B) : result B :=
  match r with
  | Ok a => k a
  | Raise e => Raise e
  end.

(** A computation that prints: the lines it printed, with its value or
    the exception that ended it. *)
Definition M (A : Type) : Type := (list string * result A)%type.

Definition ret {A : Type} (a : A) : M A := ([], Ok a).

Definition bind {A B : Type} (m : M A) (k : A -> M B) : M B :=
  match m with
  | (out, Ok a) => (out ++ fst (k a), snd (k a))
  | (out, Raise e) => (out, Raise e)
  end.

Definition print (line : string) : M unit := ([line], Ok tt).

Definition lift {A : Type} (r : result A) : M A := ([], r).

Definition stdout {A : Type} (m : M A) : list string := fst m.
Definition outcome {A : Type} (m : M A) : result A := snd m.

Declare Scope py_scope.
Delimit Scope py_scope with py.
Notation "x <- m ;; k" := (bind m (fun x => k))
  (at level 61, m at next level, right associativity) : py_scope.
Notation "m ;;; k" := (bind m (fun _ => k))
  (at level 61, right associativity) : py_scope.
Notation "x <~ r ;; k" := (rbind r (fun x => k))
  (at level 61, r at next level, right associativity) : py_scope.

(** ** Tensors (torch) *)

Record tensor : Type := mkTensor {
  shape : list nat;
  data : list Z
}.

Definition numel (s : list nat) : nat := fold_right Nat.mul 1 s.

Definition tensor_wf (t : tensor) : Prop := length (data t) = numel (shape t).

Fixpoint set_dim (dim : nat) (v : nat) (s : list nat) : list nat :=
  match s, dim with
  | [], _ => []
  | _ :: s', O => v :: s'
  | d :: s', S dim' => d :: set_dim dim' v s'
  end.

Fixpoint shape_eqb (s1 s2 : list nat) : bool :=
  match s1, s2 with
  | [], [] => true
  | d1 :: s1', d2 :: s2' => (d1 =? d2) && shape_eqb s1' s2'
  | _, _ => false
  end.

(** Two shapes can be concatenated along [dim] when they agree everywhere
    else. *)
Definition shapes_agree (dim : nat) (s1 s2 : list nat) : bool :=
  shape_eqb (set_dim dim 0 s1) (set_dim dim 0 s2).

Definition dim_size (dim : nat) (t : tensor) : nat := nth dim (shape t) 0.

(** The block of [t] that sits under the [o]-th index of the dimensions
    before [dim]. *)
Definition block (dim : nat) (o : nat) (t : tensor) : list Z :=
  let sz := numel (skipn dim (shape t)) in
  firstn sz (skipn (o * sz) (data t)).

(** What [torch.cat] raises on an empty list. *)
Definition empty_cat_error : exn :=
  RuntimeError "torch.cat(): expected a non-empty list of Tensors".

(** [torch.cat(tensors, dim)] (also spelled [torch.concat]): the tensors
    must have the same number of dimensions and agree outside [dim].  (The
    tensors met here have 2 or 5 dimensions; torch's exemption of empty
    1-dimensional tensors plays no part.) *)
Definition cat (tensors : list tensor) (dim : nat) : result tensor :=
  match tensors with
  | [] => Raise empty_cat_error
  | t0 :: rest =>
      if negb (dim <? length (shape t0)) then
        Raise (IndexError "Dimension out of range")
      else if forallb (fun t => shapes_agree dim (shape t0) (shape t)) rest then
        Ok {| shape := set_dim dim (list_sum (map (dim_size dim) tensors)) (shape t0);
              data := flat_map (fun o => flat_map (block dim o) tensors)
                               (seq 0 (numel (firstn dim (shape t0)))) |}
      else
        Raise (RuntimeError "Sizes of tensors must match except in the concatenation dimension")
  end.

(** [t[i]] on a tensor: the [i]-th slice along dimension 0. *)
Definition select0 (t : tensor) (i : nat) : result tensor :=
  match shape t with
  | [] => Raise (IndexError "invalid index of a 0-dim tensor")
  | n :: s' =>
      if i <? n then
        Ok {| shape := s'; data := firstn (numel s') (skipn (i * numel s') (data t)) |}
      else Raise (IndexError "index out of range")
  end.

(** [torch.tensor([[v]])]: a 2-dimensional tensor holding one integer. *)
Definition tensor_1x1 (v : Z) : tensor := {| shape := [1; 1]; data := [v] |}.

(** [torch.utils.data.TensorDataset(x, y_hat)]. *)
Record TensorDataset : Type := mkTensorDataset {
  ds_x : tensor;
  ds_y_hat : tensor
}.

Definition new_TensorDataset (x y_hat : tensor) : result TensorDataset :=
  if dim_size 0 x =? dim_size 0 y_hat then Ok (mkTensorDataset x y_hat)
  else Raise (AssertionError "Size mismatch between tensors").

Definition ds_len (d : TensorDataset) : nat := dim_size 0 (ds_x d).

Definition ds_getitem (d : TensorDataset) (i : nat) : result (tensor * tensor) :=
  (x <~ select0 (ds_x d) i ;; y <~ select0 (ds_y_hat d) i ;; Ok (x, y))%py.

(** ** Images (PIL, torchvision) *)

(** An image after [.convert("L")]: one 8-bit channel, [img_height] rows of
    [img_width] pixels. *)
Record image : Type := mkImage {
  img_width : nat;
  img_height : nat;
  img_pixel : nat -> nat -> Z   (* row, column *)
}.

Definition img_pixels (im : image) : list Z :=
  flat_map (fun i => map (img_pixel im i) (seq 0 (img_width im)))
           (seq 0 (img_height im)).

(** What [Image.open(path).convert("L")] finds at a path. *)
Inductive file_state : Type :=
| Missing
| Unreadable
| Readable (im : image).

Definition file_system : Type := string -> file_state.

(** [torchvision.transforms.ToTensor()] on a mode-L image: shape (C, H, W)
    with C = 1. *)
Definition ToTensor (im : image) : tensor :=
  {| shape := [1; img_height im; img_width im]; data := img_pixels im |}.

(** [image_tensor.view(1, 1, *image_tensor.shape)]. *)
Definition view_1_1 (t : tensor) : tensor :=
  {| shape := 1 :: 1 :: shape t; data := data t |}.

(** ** Lookup tables (pandas) *)

Record csv_row : Type := mkCsvRow {
  csv_mover_id : string;
  csv_file_name : string
}.

Record row : Type := mkRow {
  mover_id : string;
  file_name : string;
  label : Z
}.

(** [df["label"] = v]. *)
Definition set_label (v : Z) (table : list csv_row) : list row :=
  map (fun r => mkRow (csv_mover_id r) (csv_file_name r) v) table.

(** Insertion of a key in an ascending list without repetition. *)
Fixpoint insert_key (k : string) (keys : list string) : list string :=
  match keys with
  | [] => [k]
  | h :: t =>
      match String.compare k h with
      | Lt => k :: keys
      | Eq => keys
      | Gt => h :: insert_key k t
      end
  end.

Definition sorted_keys (rows : list row) : list string :=
  fold_right insert_key [] (map mover_id rows).

Definition rows_of (k : string) (rows : list row) : list row :=
  filter (fun r => String.eqb (mover_id r) k) rows.

(** [df.groupby("mover_id")], as the sequence of (key, group) pairs its
    iteration yields: keys ascending ([sort=True] is the default), the rows
    of a group in the order they have in [df].  Mover ids are strings,
    present in every row, and compared as Python compares [str]. *)
Definition groupby (rows : list row) : list (string * list row) :=
  map (fun k => (k, rows_of k rows)) (sorted_keys rows).

Definition csv_store : Type := string -> result (list csv_row).

Definition get_dataframe (csvs : csv_store) (path_to_csvs : string)
  : result (list (string * list row)) :=
  (real_movers <~ csvs (path_to_csvs ++ "movers_images_lookup.csv")%string ;;
   bogus_movers <~ csvs (path_to_csvs ++ "rejected_movers_images_lookup.csv")%string ;;
   let real_movers := set_label 1 real_movers in
   let bogus_movers := set_label 0 bogus_movers in
   let movers := real_movers ++ bogus_movers in
   Ok (groupby movers))%py.

(** ** get_dataset *)

Definition str_of_nat (n : nat) : string := NilEmpty.string_of_uint (Nat.to_uint n).

Definition skip_message (mover_id : string) (len : nat) : string :=
  ("Skipping " ++ mover_id ++ " sequence with length: " ++ str_of_nat len)%string.

Definition not_found_message (mover_id image_path : string) : string :=
  ("Image of " ++ mover_id ++ " not found: " ++ image_path)%string.

(** The test that leads to [break]:
    [image_tensor.shape[0] != image_shape[0] or image_tensor.shape[1] != image_shape[1]]. *)
Definition shape_differs (image_tensor : tensor) (image_shape : Z * Z) : bool :=
  negb (Z.eqb (Z.of_nat (dim_size 0 image_tensor)) (fst image_shape))
  || negb (Z.eqb (Z.of_nat (dim_size 1 image_tensor)) (snd image_shape)).

(** The inner [for ... else] over the rows of one group.  [None] is a
    [break]; [Some image_tensors] is the loop running to its end, after
    which the [else] branch runs. *)
Fixpoint load_rows (fs : file_system) (path_to_images : string) (image_shape : Z * Z)
    (mover_id : string) (rows : list row) (image_tensors : list tensor)
  : M (option (list tensor)) :=
  match rows with
  | [] => ret (Some image_tensors)
  | row :: rows' =>
      let image_path := (path_to_images ++ file_name row)%string in
      match fs image_path with
      | Missing =>
          (print (not_found_message mover_id image_path) ;;; ret None)%py
      | Unreadable => lift (Raise (UnidentifiedImageError image_path))
      | Readable image =>
          let image_tensor := ToTensor image in
          if shape_differs image_tensor image_shape then ret None
          else
            let image_tensor := view_1_1 image_tensor in
            load_rows fs path_to_images image_shape mover_id rows'
                      (image_tensors ++ [image_tensor])
      end
  end.

(** The three lists the outer loop fills. *)
Record acc : Type := mkAcc {
  x_tensors : list tensor;
  y_hat_tensors : list tensor;
  mover_ids : list string
}.

(** [group_data["label"].iloc[0]]. *)
Definition label_iloc0 (group_data : list row) : result Z :=
  match group_data with
  | r :: _ => Ok (label r)
  | [] => Raise (IndexError "single positional indexer is out-of-bounds")
  end.

(** One iteration of the outer loop. *)
Definition visit_group (fs : file_system) (path_to_images : string) (image_shape : Z * Z)
    (st : acc) (g : string * list row) : M acc :=
  let '(mover_id, group_data) := g in
  if negb (length group_data =? 4) then
    (print (skip_message mover_id (length group_data)) ;;; ret st)%py
  else
    (r <- load_rows fs path_to_images image_shape mover_id group_data [] ;;
     match r with
     | None => ret st
     | Some image_tensors =>
         x_tensor <- lift (cat image_tensors 2) ;;
         y <- lift (label_iloc0 group_data) ;;
         ret {| x_tensors := x_tensors st ++ [x_tensor];
                y_hat_tensors := y_hat_tensors st ++ [tensor_1x1 y];
                mover_ids := mover_ids st ++ [mover_id] |}
     end)%py.

Fixpoint visit_groups (fs : file_system) (path_to_images : string) (image_shape : Z * Z)
    (st : acc) (movers_agg : list (string * list row)) : M acc :=
  match movers_agg with
  | [] => ret st
  | g :: rest =>
      (st' <- visit_group fs path_to_images image_shape st g ;;
       visit_groups fs path_to_images image_shape st' rest)%py
  end.

Definition get_dataset (fs : file_system) (movers_agg : list (string * list row))
    (path_to_images : string) (image_shape : Z * Z)
  : M (TensorDataset * list string) :=
  (st <- visit_groups fs path_to_images image_shape (mkAcc [] [] []) movers_agg ;;
   x <- lift (cat (x_tensors st) 0) ;;
   y_hat <- lift (cat (y_hat_tensors st) 0) ;;
   data_set <- lift (new_TensorDataset x y_hat) ;;
   ret (data_set, mover_ids st))%py.

Definition default_image_shape : Z * Z := (30, 30)%Z.

(** ** get_loaders *)

(** The arithmetic [random_split] performs on the entries of [split].
    They are Python floats; the interface is what the function asks of
    them, so that it can be read in exact arithmetic and in IEEE binary64. *)
Class Fraction (F : Type) : Type := {
  (** [math.isclose(sum(lengths), 1) and sum(lengths) <= 1] *)
  frac_sum_is_one : list F -> bool;
  (** [not (frac < 0 or frac > 1)] *)
  frac_in_unit : F -> bool;
  (** [int(math.floor(n * frac))] *)
  floor_scale : nat -> F -> result Z;
  (** [sum(lengths) == n] *)
  frac_sum_eq : list F -> nat -> bool
}.

(** What the sizes of the subsets rest on: a fraction that passed the
    range test has a non-negative share of the dataset. *)
Class FractionLaws (F : Type) `{Fraction F} : Prop := {
  floor_scale_nonneg :
    forall n f z, frac_in_unit f = true -> floor_scale n f = Ok z -> (0 <= z)%Z
}.

(** *** Exact fractions *)

Definition Qsum (l : list Q) : Q := fold_left Qplus l 0%Q.

Definition Qmax2 (a b : Q) : Q := if Qle_bool a b then b else a.

(** [math.isclose(a, 1)] with its default [rel_tol=1e-09], [abs_tol=0.0]. *)
Definition Q_isclose_1 (a : Q) : bool :=
  Qle_bool (Qabs (a - 1)) ((1 # 1000000000) * Qmax2 (Qabs a) 1).

#[export] Instance Q_Fraction : Fraction Q := {|
  frac_sum_is_one := fun l => Q_isclose_1 (Qsum l) && Qle_bool (Qsum l) 1;
  frac_in_unit := fun f => Qle_bool 0 f && Qle_bool f 1;
  floor_scale := fun n f => Ok (Qfloor (inject_Z (Z.of_nat n) * f));
  frac_sum_eq := fun l n => Qeq_bool (Qsum l) (inject_Z (Z.of_nat n))
|}.

(** *** IEEE binary64 *)

Module B64.

Definition prec : Z := 53.
Definition emax : Z := 1024.

Definition t : Type := spec_float.

Definition of_Z (z : Z) : t := binary_normalize prec emax z 0 false.
Definition add : t -> t -> t := SFadd prec emax.
Definition sub : t -> t -> t := SFsub prec emax.
Definition mul : t -> t -> t := SFmul prec emax.
Definition div : t -> t -> t := SFdiv prec emax.
Definition leb : t -> t -> bool := SFleb.
Definition ltb : t -> t -> bool := SFltb.
Definition eqb : t -> t -> bool := SFeqb.
Definition fabs : t -> t := SFabs.

(** The float a decimal literal [n/d] denotes: the nearest to the quotient. *)
Definition of_ratio (n d : Z) : t := div (of_Z n) (of_Z d).

(** [sum(lengths)]: the integer 0, then the entries added left to right. *)
Definition sum (l : list t) : t := fold_left add l (of_Z 0).

(** [math.isclose(a, b)], [rel_tol=1e-09], [abs_tol=0.0]. *)
Definition isclose (a b : t) : bool :=
  if eqb a b then true
  else
    match a, b with
    | S754_finite _ _ _, S754_finite _ _ _
    | S754_finite _ _ _, S754_zero _
    | S754_zero _, S754_finite _ _ _
    | S754_zero _, S754_zero _ =>
        let rel_tol := of_ratio 1 1000000000 in
        let diff := fabs (sub b a) in
        leb diff (fabs (mul rel_tol b)) || leb diff (fabs (mul rel_tol a))
        || leb diff (of_Z 0)
    | _, _ => false
    end.

(** [int(math.floor(x))]. *)
Definition floor (x : t) : result Z :=
  match x with
  | S754_zero _ => Ok 0%Z
  | S754_finite s m e =>
      let z := if s then Z.neg m else Z.pos m in
      Ok (if (0 <=? e)%Z then (z * 2 ^ e)%Z else (z / 2 ^ (- e))%Z)
  | S754_infinity _ => Raise (OverflowError "cannot convert float infinity to integer")
  | S754_nan => Raise (ValueError "cannot convert float NaN to integer")
  end.

End B64.

#[export] Instance B64_Fraction : Fraction B64.t := {|
  frac_sum_is_one := fun l =>
    B64.isclose (B64.sum l) (B64.of_Z 1) && B64.leb (B64.sum l) (B64.of_Z 1);
  frac_in_unit := fun f =>
    negb (B64.ltb f (B64.of_Z 0) || B64.ltb (B64.of_Z 1) f);
  floor_scale := fun n f => B64.floor (B64.mul (B64.of_Z (Z.of_nat n)) f);
  frac_sum_eq := fun l n => B64.eqb (B64.sum l) (B64.of_Z (Z.of_nat n))
|}.

(** *** random_split, DataLoader *)

(** [torch.utils.data.Subset(dataset, indices)]. *)
Record Subset : Type := mkSubset {
  subset_dataset : TensorDataset;
  subset_indices : list nat
}.


(** [torch.utils.data.DataLoader(dataset, batch_size=..., shuffle=...)],
    as the arguments it is built from: building it draws no sample, and
    what it checks of its arguments is left out. *)
Record DataLoader : Type := mkDataLoader {
  dl_dataset : Subset;
  dl_batch_size : Z;
  dl_shuffle : bool
}.

Fixpoint incr_at (i : nat) (lengths : list Z) : list Z :=
  match lengths, i with
  | [], _ => []
  | l :: ls, O => (l + 1)%Z :: ls
  | l :: ls, S i' => l :: incr_at i' ls
  end.

(** [for i in range(remainder): subset_lengths[i % len(subset_lengths)] += 1] *)
Definition round_robin (remainder : Z) (subset_lengths : list Z) : list Z :=
  fold_left (fun ls i => incr_at (i mod length ls) ls)
            (seq 0 (Z.to_nat remainder)) subset_lengths.

Definition Zsum (l : list Z) : Z := fold_right Z.add 0%Z l.

(** [[indices[offset - length : offset] for offset, length in
      zip(accumulate(lengths), lengths)]] *)
Fixpoint slices (indices : list nat) (start : Z) (lengths : list Z) : list (list nat) :=
  match lengths with
  | [] => []
  | l :: ls =>
      firstn (Z.to_nat l) (skipn (Z.to_nat start) indices)
      :: slices indices (start + l)%Z ls
  end.

Section Loaders.

Context {F : Type} `{Fraction F}.

(** [torch.randperm]: the permutation drawn for each size. *)
Variable randperm : nat -> list nat.

Fixpoint fraction_lengths (n : nat) (lengths : list F) (i : nat) : result (list Z) :=
  match lengths with
  | [] => Ok []
  | frac :: rest =>
      if frac_in_unit frac then
        (n_items_in_split <~ floor_scale n frac ;;
         ls <~ fraction_lengths n rest (S i) ;;
         Ok (n_items_in_split :: ls))%py
      else
        Raise (ValueError ("Fraction at index " ++ str_of_nat i ++ " is not between 0 and 1")%string)
  end.

(** [torch.utils.data.random_split(dataset, lengths)] for float [lengths]:
    fractions that sum to 1 give each subset the floor of its share, and
    the elements left over go to the subsets in turn, one each.  (The
    warning for a subset of length 0 is not an output.) *)
Definition random_split (dataset : TensorDataset) (lengths : list F)
  : result (list Subset) :=
  let n := ds_len dataset in
  if frac_sum_is_one lengths then
    (subset_lengths <~ fraction_lengths n lengths 0 ;;
     let remainder := (Z.of_nat n - Zsum subset_lengths)%Z in
     let lengths := round_robin remainder subset_lengths in
     if negb (Zsum lengths =? Z.of_nat n)%Z then
       Raise (ValueError "Sum of input lengths does not equal the length of the input dataset!")
     else
       let indices := randperm (Z.to_nat (Zsum lengths)) in
       Ok (map (mkSubset dataset) (slices indices 0 lengths)))%py
  else if negb (frac_sum_eq lengths n) then
    Raise (ValueError "Sum of input lengths does not equal the length of the input dataset!")
  else
    Raise (TypeError "randperm(): argument 'n' must be int, not float").

Definition get_loaders (data_set : TensorDataset) (split : F * F) (batch_size : Z)
  : result (DataLoader * Subset) :=
  (subsets <~ random_split data_set [fst split; snd split] ;;
   match subsets with
   | [train_data_set; val_data_set] =>
       let train_loader := mkDataLoader train_data_set batch_size true in
       Ok (train_loader, val_data_set)
   | _ => Raise (ValueError "not enough values to unpack")
   end)%py.

End Loaders.

Definition default_split_b64 : B64.t * B64.t := (B64.of_ratio 7 10, B64.of_ratio 3 10).
Definition default_batch_size : Z := 4.

(** * Properties *)

(** ** The checks of the loop, as predicates on a row and on a group *)

(** The row's file opens and its tensor passes the shape test. *)
Definition frame_ok (fs : file_system) (path_to_images : string) (image_shape : Z * Z)
    (r : row) : bool :=
  match fs (path_to_images ++ file_name r)%string with
  | Readable im => negb (shape_differs (ToTensor im) image_shape)
  | _ => false
  end.

(** The tensor the loop appends for a row whose file opens. *)
Definition frame (fs : file_system) (path_to_images : string) (r : row) : tensor :=
  match fs (path_to_images ++ file_name r)%string with
  | Readable im => view_1_1 (ToTensor im)
  | _ => mkTensor [] []
  end.

(** The group passes the count, load and shape checks. *)
Definition passes (fs : file_system) (path_to_images : string) (image_shape : Z * Z)
    (g : string * list row) : bool :=
  (length (snd g) =? 4) && forallb (frame_ok fs path_to_images image_shape) (snd g).

(** What the spec calls an image of the configured shape (H, W). *)
Definition image_matches (im : image) (image_shape : Z * Z) : Prop :=
  Z.of_nat (img_height im) = fst image_shape /\ Z.of_nat (img_width im) = snd image_shape.

(** Strict order of mover ids: Python's [<] on [str]. *)
Definition id_lt (a b : string) : Prop := String.compare a b = Lt.

Definition first_label (group_data : list row) : Z :=
  match group_data with
  | r :: _ => label r
  | [] => 0%Z
  end.

(** The state after a mover has contributed its sample. *)
Definition push (st : acc) (mover : string) (x_tensor : tensor) (y : Z) : acc :=
  {| x_tensors := x_tensors st ++ [x_tensor];
     y_hat_tensors := y_hat_tensors st ++ [tensor_1x1 y];
     mover_ids := mover_ids st ++ [mover] |}.

(** What follows the outer loop in [get_dataset]. *)
Definition assemble (st : acc) : result (TensorDataset * list string) :=
  (x <~ cat (x_tensors st) 0 ;;
   y_hat <~ cat (y_hat_tensors st) 0 ;;
   data_set <~ new_TensorDataset x y_hat ;;
   Ok (data_set, mover_ids st))%py.

(** The iteration for [g] leaves the three lists as they were and prints
    [out]. *)
Definition skipped (fs : file_system) (path_to_images : string) (image_shape : Z * Z)
    (g : string * list row) (out : list string) : Prop :=
  forall st, visit_group fs path_to_images image_shape st g = (out, Ok st).

(** The groups that pass, in iteration order. *)
Definition survivors (fs : file_system) (path_to_images : string) (image_shape : Z * Z)
    (movers_agg : list (string * list row)) : list (string * list row) :=
  filter (passes fs path_to_images image_shape) movers_agg.

(** [x_tensor] is the stacked tensor of the group [g], which passes. *)
Definition stacks (fs : file_system) (path_to_images : string) (image_shape : Z * Z)
    (g : string * list row) (x_tensor : tensor) : Prop :=
  passes fs path_to_images image_shape g = true
  /\ cat (map (frame fs path_to_images) (snd g)) 2 = Ok x_tensor.

(** A float that is not below zero. *)
Definition b64_nonneg (x : B64.t) : Prop :=
  match x with
  | S754_finite true _ _ | S754_infinity true => False
  | _ => True
  end.


(** ** Concrete inputs *)

Module Examples.

(** An image of one intensity. *)
Definition flat_image (w h : nat) (v : Z) : image := mkImage w h (fun _ _ => v).

(** Four rows of one mover, as [get_dataframe] labels them. *)
Definition four_rows (mover : string) (l : Z) : list row :=
  [mkRow mover "a.png" l; mkRow mover "b.png" l; mkRow mover "c.png" l; mkRow mover "d.png" l].

(** Every path holds the same image. *)
Definition fs_const (im : image) : file_system := fun _ => Readable im.

(** Every path holds the same image, but [img/b.png] does not exist. *)
Definition fs_without_b (im : image) : file_system :=
  fun p => if String.eqb p "img/b.png" then Missing else Readable im.

(** One complete mover. *)
Definition one_mover : list (string * list row) := [("m1", four_rows "m1" 1)].

(** Two real movers, one rejected mover, one real mover with three rows. *)
Definition four_movers : list (string * list row) :=
  [("m1", four_rows "m1" 1);
   ("m2", four_rows "m2" 1);
   ("m3", [mkRow "m3" "a.png" 1; mkRow "m3" "b.png" 1; mkRow "m3" "c.png" 1]);
   ("m4", four_rows "m4" 0)].

Definition short_mover : string * list row :=
  ("m3", [mkRow "m3" "a.png" 1; mkRow "m3" "b.png" 1; mkRow "m3" "c.png" 1]).

(** Lookup tables in which the mover [m1] is listed in both files. *)
Definition csvs_overlap : csv_store := fun p =>
  if String.eqb p "data/movers_images_lookup.csv" then
    Ok [mkCsvRow "m1" "a.png"; mkCsvRow "m1" "b.png"]
  else if String.eqb p "data/rejected_movers_images_lookup.csv" then
    Ok [mkCsvRow "m1" "c.png"; mkCsvRow "m1" "d.png"]
  else Raise (FileNotFoundError p).

(** Lookup tables with disjoint movers, listed out of order. *)
Definition csvs_disjoint : csv_store := fun p =>
  if String.eqb p "data/movers_images_lookup.csv" then
    Ok [mkCsvRow "m2" "a.png"; mkCsvRow "m2" "b.png"; mkCsvRow "m2" "c.png";
        mkCsvRow "m2" "d.png"]
  else if String.eqb p "data/rejected_movers_images_lookup.csv" then
    Ok [mkCsvRow "m1" "a.png"; mkCsvRow "m1" "b.png"; mkCsvRow "m1" "c.png";
        mkCsvRow "m1" "d.png"]
  else Raise (FileNotFoundError p).

(** A dataset of [n] samples of 1x1 frames. *)
Definition dataset_of_size (n : nat) : TensorDataset :=
  mkTensorDataset (mkTensor [n; 1; 4; 1; 1] (repeat 0%Z (n * 4)))
                  (mkTensor [n; 1] (repeat 1%Z n)).

(** The identity as the permutation drawn. *)
Definition randperm_id (n : nat) : list nat := seq 0 n.

End Examples.

(** ** Further vocabulary *)

(** The table [get_dataframe] groups: the rows of the first file with
    label 1, then those of the second with label 0. *)
Definition pooled (real bogus : list csv_row) : list row :=
  set_label 1 real ++ set_label 0 bogus.

(** The mover is listed in the table. *)
Definition listed (table : list csv_row) (mover : string) : bool :=
  existsb (fun c => String.eqb (csv_mover_id c) mover) table.

(** The three lists of one run followed by those of another. *)
Definition acc_app (st1 st2 : acc) : acc :=
  {| x_tensors := x_tensors st1 ++ x_tensors st2;
     y_hat_tensors := y_hat_tensors st1 ++ y_hat_tensors st2;
     mover_ids := mover_ids st1 ++ mover_ids st2 |}.

(** What [torch.cat] raises on tensors of different sizes. *)
Definition size_mismatch_error : exn :=
  RuntimeError "Sizes of tensors must match except in the concatenation dimension".

(** What a line printed by [get_dataset] can be for the group [g]. *)
Definition line_of_group (fs : file_system) (path_to_images : string)
    (g : string * list row) (line : string) : Prop :=
  (length (snd g) <> 4 /\ line = skip_message (fst g) (length (snd g)))
  \/ (length (snd g) = 4
      /\ exists r, In r (snd g)
                   /\ fs (path_to_images ++ file_name r)%string = Missing
                   /\ line = not_found_message (fst g) (path_to_images ++ file_name r)%string).

Module MoreExamples.

(** The rows of two movers, interleaved in the first file. *)
Definition csvs_interleaved : csv_store := fun p =>
  if String.eqb p "data/movers_images_lookup.csv" then
    Ok [mkCsvRow "m2" "a.png"; mkCsvRow "m1" "a.png"; mkCsvRow "m2" "b.png";
        mkCsvRow "m1" "b.png"]
  else if String.eqb p "data/rejected_movers_images_lookup.csv" then Ok []
  else Raise (FileNotFoundError p).

(** The same rows, mover by mover. *)
Definition csvs_blocked : csv_store := fun p =>
  if String.eqb p "data/movers_images_lookup.csv" then
    Ok [mkCsvRow "m1" "a.png"; mkCsvRow "m1" "b.png"; mkCsvRow "m2" "a.png";
        mkCsvRow "m2" "b.png"]
  else if String.eqb p "data/rejected_movers_images_lookup.csv" then Ok []
  else Raise (FileNotFoundError p).

(** Images 3 pixels high; those of [w.png] are 5 wide, the others 2. *)
Definition fs_two_widths : file_system := fun p =>
  if String.eqb p "img/w.png" then Readable (Examples.flat_image 5 3 9)
  else Readable (Examples.flat_image 2 3 7).

(** [img/c.png] is not an image; the other files are 3 high and 2 wide. *)
Definition fs_broken_c : file_system := fun p =>
  if String.eqb p "img/c.png" then Unreadable
  else Readable (Examples.flat_image 2 3 7).

(** A mover whose second image is wider than the others. *)
Definition uneven_mover : string * list row :=
  ("m5", [mkRow "m5" "a.png" 1; mkRow "m5" "w.png" 1; mkRow "m5" "c.png" 1;
          mkRow "m5" "d.png" 1]).

(** A mover all of whose images are the wide one. *)
Definition wide_mover : string * list row :=
  ("m6", [mkRow "m6" "w.png" 0; mkRow "m6" "w.png" 0; mkRow "m6" "w.png" 0;
          mkRow "m6" "w.png" 0]).

End MoreExamples.

(** ** The effect layers *)

Lemma bind_ok {A B : Type} (m : M A) (k : A -> M B) (out : list string) (a : A) :
  m = (out, Ok a) -> bind m k = (out ++ fst (k a), snd (k a)).
Proof. intros ->. reflexivity. Qed.

Lemma bind_raise {A B : Type} (m : M A) (k : A -> M B) (out : list string) (e : exn) :
  m = (out, Raise e) -> bind m k = (out, Raise e).
Proof. intros ->. reflexivity. Qed.

Lemma bind_assoc {A B C : Type} (m : M A) (k : A -> M B) (h : B -> M C) :
  bind (bind m k) h = bind m (fun a => bind (k a) h).
Proof.
  destruct m as [out [a | e]]; simpl; [| reflexivity].
  destruct (k a) as [out' [b | e]]; simpl; [| reflexivity].
  now rewrite app_assoc.
Qed.

(** ** The inner loop *)

Section InnerLoop.

Variable fs : file_system.
Variable path_to_images : string.
Variable image_shape : Z * Z.

Let ok := frame_ok fs path_to_images image_shape.

Lemma load_rows_all_ok (mover : string) (rows : list row) :
  forallb ok rows = true ->
  forall image_tensors,
    load_rows fs path_to_images image_shape mover rows image_tensors
    = ([], Ok (Some (image_tensors ++ map (frame fs path_to_images) rows))).
Proof.
  induction rows as [| r rows IH]; intros Hall ts; simpl.
  - now rewrite app_nil_r.
  - simpl in Hall. apply andb_true_iff in Hall as [Hr Hrest].
    unfold ok, frame_ok in Hr. unfold frame at 1.
    destruct (fs (path_to_images ++ file_name r)%string) as [| | im]; try discriminate.
    apply negb_true_iff in Hr. rewrite Hr.
    rewrite (IH Hrest). now rewrite <- app_assoc.
Qed.

(** The first row that fails decides how the loop ends. *)
Lemma load_rows_first_bad (mover : string) (pre : list row) (r : row) (post : list row) :
  forallb ok pre = true ->
  ok r = false ->
  forall image_tensors,
    load_rows fs path_to_images image_shape mover (pre ++ r :: post) image_tensors
    = match fs (path_to_images ++ file_name r)%string with
      | Missing =>
          ([not_found_message mover (path_to_images ++ file_name r)%string], Ok None)
      | Unreadable =>
          ([], Raise (UnidentifiedImageError (path_to_images ++ file_name r)%string))
      | Readable _ => ([], Ok None)
      end.
Proof.
  induction pre as [| p pre IH]; intros Hpre Hr ts; simpl.
  - unfold ok, frame_ok in Hr.
    destruct (fs (path_to_images ++ file_name r)%string) as [| | im]; try reflexivity.
    apply negb_false_iff in Hr. now rewrite Hr.
  - simpl in Hpre. apply andb_true_iff in Hpre as [Hp Hpre].
    unfold ok, frame_ok in Hp.
    destruct (fs (path_to_images ++ file_name p)%string) as [| | im]; try discriminate.
    apply negb_true_iff in Hp. rewrite Hp. now apply IH.
Qed.

Lemma first_bad_row (rows : list row) :
  forallb ok rows = false ->
  exists pre r post,
    rows = pre ++ r :: post /\ forallb ok pre = true /\ ok r = false.
Proof.
  induction rows as [| r rows IH]; simpl; [discriminate |].
  destruct (ok r) eqn:Hr; simpl; intros Hall.
  - destruct (IH Hall) as (pre & b & post & -> & Hpre & Hb).
    exists (r :: pre), b, post. simpl. now rewrite Hr, Hpre.
  - now exists [], r, rows.
Qed.

(** A loop that does not run to its end leaves no tensor behind: it ends
    in a [break] or in an exception. *)
Lemma load_rows_some_bad (mover : string) (rows : list row) :
  forallb ok rows = false ->
  forall image_tensors,
    (exists out, load_rows fs path_to_images image_shape mover rows image_tensors
                 = (out, Ok None))
    \/ (exists e, load_rows fs path_to_images image_shape mover rows image_tensors
                  = ([], Raise e)).
Proof.
  intros Hall ts.
  destruct (first_bad_row rows Hall) as (pre & r & post & -> & Hpre & Hr).
  rewrite (load_rows_first_bad mover pre r post Hpre Hr).
  destruct (fs (path_to_images ++ file_name r)%string); eauto.
Qed.

End InnerLoop.

(** ** One iteration of the outer loop *)

Section OuterLoop.

Variable fs : file_system.
Variable path_to_images : string.
Variable image_shape : Z * Z.

Let ok := frame_ok fs path_to_images image_shape.
Let visit := visit_group fs path_to_images image_shape.
Let visits := visit_groups fs path_to_images image_shape.
Let skipped := skipped fs path_to_images image_shape.

Lemma visit_group_wrong_count (mover : string) (rows : list row) :
  length rows <> 4 ->
  skipped (mover, rows) [skip_message mover (length rows)].
Proof.
  intros Hlen st. unfold visit_group.
  apply Nat.eqb_neq in Hlen. now rewrite Hlen.
Qed.

Lemma visit_group_passes (st : acc) (mover : string) (rows : list row) :
  passes fs path_to_images image_shape (mover, rows) = true ->
  visit st (mover, rows)
  = match cat (map (frame fs path_to_images) rows) 2 with
    | Ok x_tensor => ([], Ok (push st mover x_tensor (first_label rows)))
    | Raise e => ([], Raise e)
    end.
Proof.
  unfold passes; simpl. intros Hp. apply andb_true_iff in Hp as [Hlen Hall].
  unfold visit, visit_group. rewrite Hlen; simpl.
  rewrite (load_rows_all_ok fs path_to_images image_shape mover rows Hall). simpl.
  destruct (cat (map (frame fs path_to_images) rows) 2) as [x | e]; simpl; [| reflexivity].
  destruct rows as [| r rows]; [discriminate |]. reflexivity.
Qed.

Lemma visit_group_first_bad (mover : string) (pre : list row) (r : row) (post : list row) :
  length (pre ++ r :: post) = 4 ->
  forallb ok pre = true ->
  ok r = false ->
  forall st,
    visit st (mover, pre ++ r :: post)
    = match fs (path_to_images ++ file_name r)%string with
      | Missing =>
          ([not_found_message mover (path_to_images ++ file_name r)%string], Ok st)
      | Unreadable =>
          ([], Raise (UnidentifiedImageError (path_to_images ++ file_name r)%string))
      | Readable _ => ([], Ok st)
      end.
Proof.
  intros Hlen Hpre Hr st. unfold visit, visit_group.
  apply Nat.eqb_eq in Hlen. rewrite Hlen; simpl.
  rewrite (load_rows_first_bad fs path_to_images image_shape mover pre r post Hpre Hr).
  destruct (fs (path_to_images ++ file_name r)%string); reflexivity.
Qed.

(** A group that does not pass never changes the three lists. *)
Lemma visit_group_fails (g : string * list row) :
  passes fs path_to_images image_shape g = false ->
  (exists out, skipped g out) \/ (exists e, forall st, visit st g = ([], Raise e)).
Proof.
  destruct g as [mover rows]. unfold passes; simpl. intros Hp.
  destruct (Nat.eq_dec (length rows) 4) as [Hlen | Hlen].
  - apply Nat.eqb_eq in Hlen as Hlenb. rewrite Hlenb in Hp. simpl in Hp.
    destruct (first_bad_row fs path_to_images image_shape rows Hp)
      as (pre & r & post & -> & Hpre & Hr).
    pose proof (visit_group_first_bad mover pre r post Hlen Hpre Hr) as Hv.
    destruct (fs (path_to_images ++ file_name r)%string).
    + left. eexists. exact Hv.
    + right. eexists. exact Hv.
    + left. eexists. exact Hv.
  - left. eexists. now apply visit_group_wrong_count.
Qed.

Lemma visit_group_fails_ok (g : string * list row) (st st' : acc) (out : list string) :
  passes fs path_to_images image_shape g = false ->
  visit st g = (out, Ok st') ->
  st' = st.
Proof.
  intros Hp Hv. destruct (visit_group_fails g Hp) as [[d Hs] | [e He]].
  - unfold visit in Hv. rewrite Hs in Hv. congruence.
  - rewrite He in Hv. discriminate.
Qed.

Lemma visit_group_passes_ok (g : string * list row) (st st' : acc) (out : list string) :
  passes fs path_to_images image_shape g = true ->
  visit st g = (out, Ok st') ->
  out = [] /\
  exists x_tensor,
    cat (map (frame fs path_to_images) (snd g)) 2 = Ok x_tensor
    /\ st' = push st (fst g) x_tensor (first_label (snd g)).
Proof.
  destruct g as [mover rows]. intros Hp Hv.
  rewrite (visit_group_passes st mover rows Hp) in Hv. simpl.
  destruct (cat (map (frame fs path_to_images) rows) 2) as [x | e]; [| discriminate].
  injection Hv as <- <-. eauto.
Qed.

(** ** The outer loop *)

Lemma visit_groups_app (st : acc) (l1 l2 : list (string * list row)) :
  visits st (l1 ++ l2) = bind (visits st l1) (fun st' => visits st' l2).
Proof.
  revert st. induction l1 as [| g l1 IH]; intros st; simpl.
  - unfold bind, ret. now destruct (visits st l2).
  - unfold visits in *. simpl. rewrite bind_assoc.
    destruct (visit_group fs path_to_images image_shape st g) as [out [st' | e]];
      simpl; [| reflexivity].
    now rewrite IH.
Qed.

(** Removing a skipped group changes nothing but the lines it printed. *)
Lemma visit_groups_skip (g : string * list row) (d : list string)
    (pre post : list (string * list row)) (st : acc) :
  skipped g d ->
  visits st (pre ++ g :: post)
  = match visits st pre with
    | (out, Ok st1) => (out ++ d ++ fst (visits st1 post), snd (visits st1 post))
    | (out, Raise e) => (out, Raise e)
    end.
Proof.
  intros Hs. rewrite visit_groups_app.
  destruct (visits st pre) as [out [st1 | e]]; simpl; [| reflexivity].
  unfold visits. simpl. rewrite (Hs st1). simpl. reflexivity.
Qed.

Lemma visit_groups_without (pre post : list (string * list row)) (st : acc) :
  visits st (pre ++ post)
  = match visits st pre with
    | (out, Ok st1) => (out ++ fst (visits st1 post), snd (visits st1 post))
    | (out, Raise e) => (out, Raise e)
    end.
Proof.
  rewrite visit_groups_app. now destruct (visits st pre) as [out [st1 | e]].
Qed.

Lemma get_dataset_unfold (movers_agg : list (string * list row)) :
  get_dataset fs movers_agg path_to_images image_shape
  = match visits (mkAcc [] [] []) movers_agg with
    | (out, Ok st) => (out, assemble st)
    | (out, Raise e) => (out, Raise e)
    end.
Proof.
  unfold get_dataset, visits.
  destruct (visit_groups fs path_to_images image_shape (mkAcc [] [] []) movers_agg)
    as [out [st | e]]; simpl; [| reflexivity].
  unfold assemble, lift, ret.
  destruct (cat (x_tensors st) 0) as [x | e]; simpl; [| now rewrite app_nil_r].
  destruct (cat (y_hat_tensors st) 0) as [y | e]; simpl; [| now rewrite app_nil_r].
  destruct (new_TensorDataset x y) as [ds | e]; simpl; now rewrite app_nil_r.
Qed.

(** A skipped group is invisible in the result of [get_dataset]; the lines
    it printed sit between those of the groups before and after it. *)
Lemma get_dataset_skip (g : string * list row) (d : list string)
    (pre post : list (string * list row)) :
  skipped g d ->
  outcome (get_dataset fs (pre ++ g :: post) path_to_images image_shape)
  = outcome (get_dataset fs (pre ++ post) path_to_images image_shape)
  /\ forall out1 st1,
      visits (mkAcc [] [] []) pre = (out1, Ok st1) ->
      exists out2,
        stdout (get_dataset fs (pre ++ post) path_to_images image_shape) = out1 ++ out2
        /\ stdout (get_dataset fs (pre ++ g :: post) path_to_images image_shape)
           = out1 ++ d ++ out2.
Proof.
  intros Hs. rewrite !get_dataset_unfold.
  rewrite (visit_groups_skip g d pre post _ Hs), visit_groups_without.
  destruct (visits (mkAcc [] [] []) pre) as [out [st1 | e]].
  - destruct (visits st1 post) as [out2 [st2 | e]]; simpl; split; try reflexivity;
      intros out1 st1' Heq; injection Heq as <- <-; exists out2; now split.
  - split; [reflexivity | discriminate].
Qed.

End OuterLoop.

(** ** Tensors: shapes, concatenation, indexing *)

Lemma shape_eqb_eq (s1 s2 : list nat) : shape_eqb s1 s2 = true <-> s1 = s2.
Proof.
  revert s2. induction s1 as [| d1 s1 IH]; intros [| d2 s2]; simpl.
  - tauto.
  - split; discriminate.
  - split; discriminate.
  - rewrite andb_true_iff, Nat.eqb_eq, IH.
    split.
    + intros [Hd Hs]. now subst.
    + intros E. injection E as Hd Hs. now split.
Qed.

Lemma shapes_agree_eq (dim : nat) (s1 s2 : list nat) :
  shapes_agree dim s1 s2 = true ->
  nth dim s1 0 = nth dim s2 0 ->
  s1 = s2.
Proof.
  unfold shapes_agree. rewrite shape_eqb_eq. revert dim s2.
  induction s1 as [| d1 s1 IH]; intros dim [| d2 s2]; simpl.
  - reflexivity.
  - destruct dim; discriminate.
  - destruct dim; discriminate.
  - destruct dim as [| dim]; simpl; intros E Hn.
    + injection E as E. congruence.
    + injection E as Hd E. subst d2. f_equal. now apply (IH dim).
Qed.

Lemma shapes_agree_refl (dim : nat) (s : list nat) : shapes_agree dim s s = true.
Proof. unfold shapes_agree. now apply shape_eqb_eq. Qed.

Lemma numel_app (s1 s2 : list nat) : numel (s1 ++ s2) = numel s1 * numel s2.
Proof. induction s1 as [| d s1 IH]; simpl; [lia |]. rewrite IH. lia. Qed.

Lemma numel_split (dim : nat) (s : list nat) :
  numel s = numel (firstn dim s) * numel (skipn dim s).
Proof. now rewrite <- numel_app, firstn_skipn. Qed.

Lemma flat_map_length_const {A B : Type} (f : A -> list B) (k : nat) (l : list A) :
  Forall (fun a => length (f a) = k) l ->
  length (flat_map f l) = length l * k.
Proof.
  induction 1 as [| a l Ha _ IH]; simpl; [reflexivity |].
  rewrite length_app, Ha, IH. lia.
Qed.

(** The [i]-th of equally long chunks laid end to end. *)
Lemma chunk_of_flat_map {A B : Type} (f : A -> list B) (k : nat) (l : list A) :
  Forall (fun a => length (f a) = k) l ->
  forall i a, nth_error l i = Some a ->
  firstn k (skipn (i * k) (flat_map f l)) = f a.
Proof.
  induction 1 as [| b l Hb Hl IH]; intros [| i] a Hn; simpl in Hn; try discriminate.
  - injection Hn as ->. simpl.
    rewrite firstn_app, <- Hb, firstn_all, Nat.sub_diag. simpl. now rewrite app_nil_r.
  - simpl. rewrite skipn_app, <- Hb.
    rewrite (skipn_all2 (f b)) by lia. simpl.
    replace (length (f b) + i * length (f b) - length (f b)) with (i * length (f b)) by lia.
    rewrite Hb. now apply IH.
Qed.

Lemma list_sum_const {A : Type} (f : A -> nat) (c : nat) (l : list A) :
  Forall (fun a => f a = c) l -> list_sum (map f l) = length l * c.
Proof. induction 1 as [| a l Ha _ IH]; simpl; [reflexivity |]. rewrite Ha, IH. lia. Qed.

(** Concatenation of tensors that hold one block each along [dim] and
    have the same extent [c] there: when [torch.cat] accepts them they all
    have one shape, and the result lays their elements end to end. *)
Lemma cat_unit_blocks (tensors : list tensor) (dim c : nat) (t : tensor) :
  cat tensors dim = Ok t ->
  Forall (fun u => tensor_wf u /\ dim_size dim u = c
                   /\ numel (firstn dim (shape u)) = 1) tensors ->
  exists s,
    tensors <> [] /\ dim < length s
    /\ Forall (fun u => shape u = s) tensors
    /\ shape t = set_dim dim (length tensors * c) s
    /\ data t = flat_map data tensors.
Proof.
  destruct tensors as [| t0 rest]; [discriminate |].
  unfold cat. destruct (dim <? length (shape t0)) eqn:Hdim; simpl; [| discriminate].
  destruct (forallb (fun u => shapes_agree dim (shape t0) (shape u)) rest) eqn:Hagree;
    [| discriminate].
  intros [= <-] Hall. exists (shape t0).
  apply Nat.ltb_lt in Hdim.
  assert (Hshapes : Forall (fun u => shape u = shape t0) (t0 :: rest)).
  { constructor; [reflexivity |].
    rewrite forallb_forall in Hagree. apply Forall_forall. intros u Hu.
    symmetry. apply (shapes_agree_eq dim); [now apply Hagree |].
    rewrite Forall_forall in Hall.
    destruct (Hall t0 (or_introl eq_refl)) as (_ & H0 & _).
    destruct (Hall u (or_intror Hu)) as (_ & H1 & _).
    unfold dim_size in *. congruence. }
  repeat split; try assumption; try discriminate.
  - simpl shape. f_equal.
    apply (list_sum_const (dim_size dim) c (t0 :: rest)).
    eapply Forall_impl; [| exact Hall]. now intros u (_ & Hu & _).
  - simpl data.
    inversion Hall as [| ? ? (_ & _ & H1) _]; subst. rewrite H1. simpl.
    rewrite app_nil_r.
    change (flat_map (block dim 0) (t0 :: rest) = flat_map data (t0 :: rest)).
    clear - Hall.
    induction Hall as [| u l (Hwf & _ & Hone) _ IH]; [reflexivity |].
    simpl. f_equal; [| exact IH].
    unfold block. simpl. unfold tensor_wf in Hwf.
    rewrite (numel_split dim (shape u)), Hone, Nat.mul_1_l in Hwf.
    rewrite <- Hwf. apply firstn_all.
Qed.

(** The converse: such tensors of one shape are always accepted. *)
Lemma cat_same_shape (tensors : list tensor) (dim : nat) (s : list nat) :
  tensors <> [] -> dim < length s ->
  Forall (fun u => shape u = s) tensors ->
  exists t, cat tensors dim = Ok t.
Proof.
  destruct tensors as [| t0 rest]; [congruence |]. intros _ Hdim Hall.
  inversion Hall as [| ? ? H0 Hrest]; subst. unfold cat.
  apply Nat.ltb_lt in Hdim. rewrite Hdim. simpl.
  replace (forallb (fun t => shapes_agree dim (shape t0) (shape t)) rest) with true;
    [eauto |].
  symmetry. apply forallb_forall. intros u Hu. rewrite Forall_forall in Hrest.
  rewrite (Hrest u Hu). apply shapes_agree_refl.
Qed.

Lemma cat_nil_raises (dim : nat) :
  cat [] dim = Raise empty_cat_error.
Proof. reflexivity. Qed.

Lemma select0_of_chunks (t : tensor) (tensors : list tensor) (s : list nat) :
  shape t = length tensors :: s ->
  data t = flat_map data tensors ->
  Forall (fun u => length (data u) = numel s) tensors ->
  forall i u, nth_error tensors i = Some u ->
  select0 t i = Ok {| shape := s; data := data u |}.
Proof.
  intros Hs Hd Hall i u Hi. unfold select0. rewrite Hs.
  assert (Hlt : i < length tensors) by (apply nth_error_Some; congruence).
  apply Nat.ltb_lt in Hlt. rewrite Hlt. rewrite Hd.
  now rewrite (chunk_of_flat_map data (numel s) tensors Hall i u Hi).
Qed.

(** ** Images *)

Lemma img_pixels_length (im : image) :
  length (img_pixels im) = img_height im * img_width im.
Proof.
  unfold img_pixels.
  rewrite (flat_map_length_const _ (img_width im)).
  - now rewrite length_seq.
  - apply Forall_forall. intros i _. now rewrite length_map, length_seq.
Qed.

Lemma ToTensor_wf (im : image) : tensor_wf (ToTensor im).
Proof. unfold tensor_wf; simpl. rewrite img_pixels_length. lia. Qed.

(** The shape test reads the channel count and the height. *)
Lemma shape_differs_ToTensor (im : image) (image_shape : Z * Z) :
  shape_differs (ToTensor im) image_shape
  = negb (Z.eqb 1 (fst image_shape))
    || negb (Z.eqb (Z.of_nat (img_height im)) (snd image_shape)).
Proof. reflexivity. Qed.

(** ** Frames and stacked tensors of a group that passes *)

Section Frames.

Variable fs : file_system.
Variable path_to_images : string.
Variable image_shape : Z * Z.

Let ok := frame_ok fs path_to_images image_shape.
Let frame_of := frame fs path_to_images.
Let height : nat := Z.to_nat (snd image_shape).

Lemma frame_ok_inv (r : row) :
  ok r = true ->
  exists im,
    fs (path_to_images ++ file_name r)%string = Readable im
    /\ fst image_shape = 1%Z
    /\ img_height im = height
    /\ frame_of r = view_1_1 (ToTensor im).
Proof.
  unfold ok, frame_ok, frame_of, frame, height.
  destruct (fs (path_to_images ++ file_name r)%string) as [| | im]; try discriminate.
  rewrite shape_differs_ToTensor, negb_orb, !negb_involutive, andb_true_iff, !Z.eqb_eq.
  intros [H1 H2]. exists im. repeat split; auto. rewrite <- H2. now rewrite Nat2Z.id.
Qed.

Lemma frame_ok_shape (r : row) :
  ok r = true ->
  tensor_wf (frame_of r)
  /\ exists w, shape (frame_of r) = [1; 1; 1; height; w].
Proof.
  intros Hr. destruct (frame_ok_inv r Hr) as (im & _ & _ & Hh & ->). split.
  - pose proof (ToTensor_wf im) as Hwf. unfold tensor_wf in *. simpl in *. lia.
  - exists (img_width im). simpl. now rewrite Hh.
Qed.

(** The tensor [torch.cat(image_tensors, dim=2)] gives for a group that
    passes: the four frames along dimension 2 of a 5-dimensional tensor. *)
Lemma stacked_shape (g : string * list row) (x_tensor : tensor) :
  passes fs path_to_images image_shape g = true ->
  cat (map frame_of (snd g)) 2 = Ok x_tensor ->
  exists w,
    shape x_tensor = [1; 1; 4; height; w]
    /\ Forall (fun r => shape (frame_of r) = [1; 1; 1; height; w]) (snd g)
    /\ data x_tensor = flat_map (fun r => data (frame_of r)) (snd g)
    /\ tensor_wf x_tensor.
Proof.
  destruct g as [mover rows]. unfold passes; simpl.
  rewrite andb_true_iff, Nat.eqb_eq, forallb_forall. intros [Hlen Hall] Hcat.
  destruct (cat_unit_blocks _ 2 1 _ Hcat) as (s & _ & _ & Hs & Hshape & Hdata).
  { apply Forall_forall. intros u Hu. apply in_map_iff in Hu as (r & <- & Hr).
    destruct (frame_ok_shape r (Hall r Hr)) as (Hwf & w & Hw).
    unfold dim_size. rewrite Hw. auto. }
  rewrite length_map, Hlen in Hshape.
  destruct rows as [| r0 rows]; [discriminate |].
  destruct (frame_ok_shape r0 (Hall r0 (or_introl eq_refl))) as (_ & w & Hw).
  inversion Hs as [| ? ? H0 _]; subst. rewrite Hw in *.
  assert (Hframes : Forall (fun r => shape (frame_of r) = [1; 1; 1; height; w]) (r0 :: rows)).
  { rewrite Forall_map in Hs. exact Hs. }
  exists w. simpl in Hshape. repeat split; try assumption.
  - rewrite Hdata. now rewrite flat_map_concat_map, map_map, <- flat_map_concat_map.
  - unfold tensor_wf. rewrite Hshape, Hdata.
    rewrite (flat_map_length_const data (height * w)).
    + rewrite length_map, Hlen. simpl. lia.
    + apply Forall_forall. intros u Hu. apply in_map_iff in Hu as (r & <- & Hr).
      destruct (frame_ok_shape r (Hall r Hr)) as (Hwf & _).
      rewrite Forall_forall in Hframes. unfold tensor_wf in Hwf.
      rewrite Hwf, (Hframes r Hr). simpl. lia.
Qed.

(** A group that passes and whose images have one width is accepted by
    [torch.cat]. *)
Lemma stacked_exists (g : string * list row) (w : nat) :
  passes fs path_to_images image_shape g = true ->
  Forall (fun r => forall im,
            fs (path_to_images ++ file_name r)%string = Readable im ->
            img_width im = w) (snd g) ->
  exists x_tensor, cat (map frame_of (snd g)) 2 = Ok x_tensor.
Proof.
  destruct g as [mover rows]. unfold passes; simpl.
  rewrite andb_true_iff, Nat.eqb_eq, forallb_forall. intros [Hlen Hall] Hw.
  apply (cat_same_shape _ 2 [1; 1; 1; height; w]).
  - destruct rows; [discriminate | discriminate].
  - simpl. lia.
  - apply Forall_map, Forall_forall. intros r Hr.
    destruct (frame_ok_inv r (Hall r Hr)) as (im & Him & _ & Hh & ->).
    rewrite Forall_forall in Hw. simpl. now rewrite Hh, (Hw r Hr im Him).
Qed.

End Frames.

(** ** What a run of [get_dataset] that returns has built *)

Section Dataset.

Variable fs : file_system.
Variable path_to_images : string.
Variable image_shape : Z * Z.

Let visits := visit_groups fs path_to_images image_shape.
Let frame_of := frame fs path_to_images.
Let alive := survivors fs path_to_images image_shape.
Let height : nat := Z.to_nat (snd image_shape).

Let stacks := stacks fs path_to_images image_shape.

Lemma visit_groups_ok (movers_agg : list (string * list row)) :
  forall st out st',
    visits st movers_agg = (out, Ok st') ->
    mover_ids st' = mover_ids st ++ map fst (alive movers_agg)
    /\ y_hat_tensors st'
       = y_hat_tensors st
         ++ map (fun g => tensor_1x1 (first_label (snd g))) (alive movers_agg)
    /\ exists xs,
         x_tensors st' = x_tensors st ++ xs /\ Forall2 stacks (alive movers_agg) xs.
Proof.
  induction movers_agg as [| g rest IH]; intros st out st' Hv.
  - injection Hv as _ <-. simpl. rewrite !app_nil_r. repeat split. exists [].
    rewrite app_nil_r. split; [reflexivity | constructor].
  - unfold visits in Hv. simpl in Hv. unfold bind in Hv.
    destruct (visit_group fs path_to_images image_shape st g) as [o [st1 | e]] eqn:Hg;
      [| discriminate].
    destruct (visit_groups fs path_to_images image_shape st1 rest) as [o2 r2] eqn:Hrest.
    simpl in Hv. injection Hv as _ ->.
    destruct (IH st1 o2 st' Hrest) as (Hids & Hys & xs & Hxs & Hst).
    unfold alive, survivors. simpl.
    destruct (passes fs path_to_images image_shape g) eqn:Hp.
    + destruct (visit_group_passes_ok fs path_to_images image_shape g st st1 o Hp Hg)
        as (_ & x & Hx & ->).
      simpl in *. rewrite Hids, Hys, Hxs, <- !app_assoc. repeat split.
      exists (x :: xs). split; [reflexivity |]. constructor; [now split | assumption].
    + rewrite (visit_group_fails_ok fs path_to_images image_shape g st st1 o Hp Hg) in *.
      repeat split; auto. now exists xs.
Qed.

Lemma flat_map_data_1x1 {A : Type} (f : A -> Z) (l : list A) :
  flat_map data (map (fun a => tensor_1x1 (f a)) l) = map f l.
Proof. induction l as [| a l IH]; simpl; [reflexivity |]. now rewrite IH. Qed.

Lemma stacks_all (sv : list (string * list row)) (xs : list tensor) :
  Forall2 stacks sv xs ->
  Forall (fun x => tensor_wf x /\ exists w, shape x = [1; 1; 4; height; w]) xs.
Proof.
  induction 1 as [| g x sv xs [Hp Hgx] _ IH]; constructor; [| exact IH].
  destruct (stacked_shape fs path_to_images image_shape g x Hp Hgx)
    as (w & Hshape & _ & _ & Hwf).
  split; [exact Hwf | now exists w].
Qed.

Lemma get_dataset_ok (movers_agg : list (string * list row))
    (out : list string) (data_set : TensorDataset) (ids : list string) :
  get_dataset fs movers_agg path_to_images image_shape = (out, Ok (data_set, ids)) ->
  ids = map fst (alive movers_agg)
  /\ alive movers_agg <> []
  /\ ds_y_hat data_set
     = {| shape := [length (alive movers_agg); 1];
          data := map (fun g => first_label (snd g)) (alive movers_agg) |}
  /\ exists w xs,
       Forall2 stacks (alive movers_agg) xs
       /\ Forall (fun x => shape x = [1; 1; 4; height; w] /\ tensor_wf x) xs
       /\ shape (ds_x data_set) = [length (alive movers_agg); 1; 4; height; w]
       /\ data (ds_x data_set) = flat_map data xs.
Proof.
  rewrite get_dataset_unfold.
  destruct (visit_groups fs path_to_images image_shape (mkAcc [] [] []) movers_agg)
    as [o [st | e]] eqn:Hv; [| discriminate].
  intros Hres. injection Hres as _ Hasm.
  destruct (visit_groups_ok movers_agg _ _ _ Hv) as (Hids & Hys & xs & Hxs & Hst).
  simpl in Hids, Hys, Hxs. fold alive in Hids, Hys, Hst.
  unfold assemble in Hasm. rewrite Hxs, Hys in Hasm.
  destruct (cat xs 0) as [x | e] eqn:Hx; [| discriminate]. simpl in Hasm.
  destruct (cat _ 0) as [y | e] eqn:Hy in Hasm; [| discriminate]. simpl in Hasm.
  unfold new_TensorDataset in Hasm.
  destruct (dim_size 0 x =? dim_size 0 y); [| discriminate].
  injection Hasm as <- <-. simpl.
  pose proof (stacks_all _ _ Hst) as Hstk.
  pose proof (Forall2_length Hst) as Hlen.
  destruct (cat_unit_blocks xs 0 1 x Hx) as (s & Hne & _ & Hs & Hshape & Hdata).
  { eapply Forall_impl; [| exact Hstk]. intros u (Hwf & w & Hw).
    unfold dim_size. rewrite Hw. auto. }
  destruct (cat_unit_blocks _ 0 1 y Hy) as (sy & _ & _ & Hsy & Hyshape & Hydata).
  { apply Forall_map, Forall_forall. intros g _. unfold tensor_wf. auto. }
  rewrite length_map in Hyshape. rewrite flat_map_data_1x1 in Hydata.
  assert (Hsv : alive movers_agg <> []).
  { intros E. rewrite E in Hlen. destruct xs; [congruence | discriminate]. }
  repeat split; try assumption.
  - destruct y as [ys yd]. simpl in *. subst yd. f_equal.
    destruct (alive movers_agg) as [| g0 sv]; [congruence |].
    inversion Hsy as [| ? ? H0 _]; subst. simpl. f_equal. lia.
  - destruct xs as [| x0 xs']; [congruence |].
    inversion Hstk as [| ? ? (_ & w & Hw) _]; subst.
    inversion Hs as [| ? ? H0 _]; subst.
    exists w, (x0 :: xs'). repeat split; try assumption.
    + apply Forall_forall. intros u Hu. rewrite Forall_forall in Hs, Hstk.
      split; [rewrite (Hs u Hu); exact Hw | apply (Hstk u Hu)].
    + rewrite Hshape, Hw, Hlen. simpl. f_equal. lia.
Qed.

Lemma Forall2_nth_error_l {A B : Type} (R : A -> B -> Prop) (l : list A) (l' : list B) :
  Forall2 R l l' ->
  forall i a, nth_error l i = Some a -> exists b, nth_error l' i = Some b /\ R a b.
Proof.
  induction 1 as [| a0 b0 l l' Hab _ IH]; intros [| i] a Hi; simpl in Hi; try discriminate.
  - injection Hi as <-. now exists b0.
  - now apply IH.
Qed.

(** The [i]-th sample of the returned dataset is built from the [i]-th
    group that passes, whose key is the [i]-th mover id. *)
Lemma get_dataset_samples (movers_agg : list (string * list row))
    (out : list string) (data_set : TensorDataset) (ids : list string) :
  get_dataset fs movers_agg path_to_images image_shape = (out, Ok (data_set, ids)) ->
  forall i g, nth_error (alive movers_agg) i = Some g ->
    nth_error ids i = Some (fst g)
    /\ exists x_tensor,
         stacks g x_tensor
         /\ ds_getitem data_set i
            = Ok ({| shape := tl (shape x_tensor); data := data x_tensor |},
                  {| shape := [1]; data := [first_label (snd g)] |}).
Proof.
  intros Hres i g Hi.
  destruct (get_dataset_ok movers_agg out data_set ids Hres)
    as (Hids & _ & Hy & w & xs & Hst & Hxs & Hshape & Hdata).
  split; [rewrite Hids; now apply map_nth_error |].
  destruct (Forall2_nth_error_l _ _ _ Hst i g Hi) as (x & Hx & Hgx).
  exists x. split; [exact Hgx |].
  assert (Hsx : select0 (ds_x data_set) i = Ok {| shape := [1; 4; height; w]; data := data x |}).
  { apply (select0_of_chunks (ds_x data_set) xs [1; 4; height; w]); auto.
    - now rewrite Hshape, (Forall2_length Hst).
    - eapply Forall_impl; [| exact Hxs]. intros u [Hu Hwf].
      unfold tensor_wf in Hwf. rewrite Hwf, Hu. simpl. lia. }
  assert (Hsy : select0 (ds_y_hat data_set) i
                = Ok {| shape := [1]; data := data (tensor_1x1 (first_label (snd g))) |}).
  { apply (select0_of_chunks (ds_y_hat data_set)
             (map (fun g => tensor_1x1 (first_label (snd g))) (alive movers_agg)) [1]).
    - rewrite Hy, length_map. reflexivity.
    - rewrite Hy, flat_map_data_1x1. reflexivity.
    - apply Forall_map, Forall_forall. now intros.
    - exact (map_nth_error (fun g => tensor_1x1 (first_label (snd g))) i _ Hi). }
  unfold ds_getitem. rewrite Hsx, Hsy. simpl.
  rewrite Forall_forall in Hxs.
  destruct (Hxs x (nth_error_In _ _ Hx)) as [-> _]. reflexivity.
Qed.

End Dataset.

(** ** When [get_dataset] returns *)

Section Returns.

Variable fs : file_system.
Variable path_to_images : string.
Variable image_shape : Z * Z.
Variable width : nat.

(** Every file either is missing or decodes. *)
Hypothesis no_unreadable : forall p, fs p <> Unreadable.
(** Every image has the same width. *)
Hypothesis one_width : forall p im, fs p = Readable im -> img_width im = width.

Let visits := visit_groups fs path_to_images image_shape.
Let alive := survivors fs path_to_images image_shape.
Let height : nat := Z.to_nat (snd image_shape).

Lemma visit_group_fails_skipped (g : string * list row) :
  passes fs path_to_images image_shape g = false ->
  exists out, skipped fs path_to_images image_shape g out.
Proof.
  destruct g as [mover rows]. unfold passes; simpl. intros Hp.
  destruct (Nat.eq_dec (length rows) 4) as [Hlen | Hlen].
  - apply Nat.eqb_eq in Hlen as Hlenb. rewrite Hlenb in Hp. simpl in Hp.
    destruct (first_bad_row fs path_to_images image_shape rows Hp)
      as (pre & r & post & -> & Hpre & Hr).
    pose proof (visit_group_first_bad fs path_to_images image_shape
                  mover pre r post Hlen Hpre Hr) as Hv.
    pose proof (no_unreadable (path_to_images ++ file_name r)%string) as Hnu.
    destruct (fs (path_to_images ++ file_name r)%string); [| congruence |];
      eexists; exact Hv.
  - eexists. now apply visit_group_wrong_count.
Qed.

Lemma stacks_one_width (g : string * list row) (x_tensor : tensor) :
  stacks fs path_to_images image_shape g x_tensor ->
  shape x_tensor = [1; 1; 4; height; width] /\ tensor_wf x_tensor.
Proof.
  intros [Hp Hcat].
  destruct (stacked_shape fs path_to_images image_shape g x_tensor Hp Hcat)
    as (w & Hshape & Hframes & _ & Hwf).
  split; [| exact Hwf]. rewrite Hshape. repeat f_equal.
  destruct g as [mover rows]. unfold passes in Hp; simpl in *.
  apply andb_true_iff in Hp as [Hlen Hall]. apply Nat.eqb_eq in Hlen.
  destruct rows as [| r0 rows]; [discriminate |].
  simpl in Hall. apply andb_true_iff in Hall as [H0 _].
  destruct (frame_ok_inv fs path_to_images image_shape r0 H0) as (im & Him & _ & _ & Hf).
  inversion Hframes as [| ? ? Hr0 _]; subst. rewrite Hf in Hr0. simpl in Hr0.
  injection Hr0 as _ Hw. rewrite <- Hw. exact (one_width _ im Him).
Qed.

Lemma stacks_exists (g : string * list row) :
  passes fs path_to_images image_shape g = true ->
  exists x_tensor, stacks fs path_to_images image_shape g x_tensor.
Proof.
  intros Hp.
  destruct (stacked_exists fs path_to_images image_shape g width Hp) as [x Hx].
  - apply Forall_forall. intros r _ im Him. exact (one_width _ im Him).
  - exists x. now split.
Qed.

Lemma visit_groups_total (movers_agg : list (string * list row)) :
  forall st, exists out st', visits st movers_agg = (out, Ok st').
Proof.
  induction movers_agg as [| g rest IH]; intros st.
  - now exists [], st.
  - unfold visits. simpl.
    destruct (passes fs path_to_images image_shape g) eqn:Hp.
    + destruct (stacks_exists g Hp) as (x & _ & Hx). destruct g as [mover rows].
      rewrite (visit_group_passes fs path_to_images image_shape st mover rows Hp).
      simpl in Hx. rewrite Hx.
      destruct (IH (push st mover x (first_label rows))) as (out & st' & Hv).
      unfold visits in Hv. unfold bind. rewrite Hv. simpl. eauto.
    + destruct (visit_group_fails_skipped g Hp) as [d Hs]. rewrite (Hs st).
      destruct (IH st) as (out & st' & Hv).
      unfold visits in Hv. unfold bind. rewrite Hv. simpl. eauto.
Qed.

(** With at least one group that passes, [get_dataset] returns. *)
Lemma get_dataset_returns (movers_agg : list (string * list row)) :
  alive movers_agg <> [] ->
  exists out data_set,
    get_dataset fs movers_agg path_to_images image_shape
    = (out, Ok (data_set, map fst (alive movers_agg))).
Proof.
  intros Hne. rewrite get_dataset_unfold.
  destruct (visit_groups_total movers_agg (mkAcc [] [] [])) as (out & st & Hv).
  unfold visits in Hv. rewrite Hv.
  destruct (visit_groups_ok fs path_to_images image_shape movers_agg _ _ _ Hv)
    as (Hids & Hys & xs & Hxs & Hst).
  simpl in Hids, Hys, Hxs. fold alive in Hids, Hys, Hst.
  pose proof (Forall2_length Hst) as Hlen.
  assert (Hall : Forall (fun x => shape x = [1; 1; 4; height; width] /\ tensor_wf x) xs).
  { clear - Hst one_width. induction Hst as [| g x sv xs' Hgx _ IH]; constructor; auto.
    now apply (stacks_one_width g). }
  assert (Hxne : xs <> []).
  { intros ->. destruct (alive movers_agg); [congruence | discriminate]. }
  destruct (cat_same_shape xs 0 [1; 1; 4; height; width] Hxne) as [x Hx];
    [simpl; lia | eapply Forall_impl; [| exact Hall]; now intros u [Hu _] |].
  destruct (cat_same_shape (y_hat_tensors st) 0 [1; 1]) as [y Hy].
  { rewrite Hys. destruct (alive movers_agg); [congruence | discriminate]. }
  { simpl; lia. }
  { rewrite Hys. apply Forall_map, Forall_forall. now intros. }
  destruct (cat_unit_blocks xs 0 1 x Hx) as (s & _ & _ & Hs & Hshape & _).
  { eapply Forall_impl; [| exact Hall]. intros u [Hu Hwf].
    unfold dim_size. rewrite Hu. auto. }
  destruct (cat_unit_blocks _ 0 1 y Hy) as (sy & _ & _ & Hsy & Hyshape & _).
  { rewrite Hys. apply Forall_map, Forall_forall. intros g _. unfold tensor_wf. auto. }
  assert (Hdims : dim_size 0 x = dim_size 0 y).
  { unfold dim_size. rewrite Hshape, Hyshape, Hys, length_map, <- Hlen.
    rewrite Hys in Hsy.
    destruct Hall as [| x0 xs0 [H0 _] _]; [congruence |].
    inversion Hs as [| ? ? Hsx _]; subst.
    destruct (alive movers_agg) as [| g0 sv]; [congruence |].
    inversion Hsy as [| ? ? Hsy0 _]; subst.
    rewrite H0. reflexivity. }
  unfold assemble. rewrite Hxs, Hx. simpl. rewrite Hy. simpl.
  unfold new_TensorDataset. apply Nat.eqb_eq in Hdims. rewrite Hdims. simpl.
  rewrite Hids. eauto.
Qed.

End Returns.

(** ** Grouping *)

Lemma id_lt_trans (a b c : string) : id_lt a b -> id_lt b c -> id_lt a c.
Proof.
  unfold id_lt. intros Hab Hbc.
  apply String_as_OT.cmp_lt in Hab. apply String_as_OT.cmp_lt in Hbc.
  apply String_as_OT.cmp_lt. now apply (String_as_OT.lt_trans a b c).
Qed.

Lemma insert_key_in (k k' : string) (keys : list string) :
  In k (insert_key k' keys) <-> k = k' \/ In k keys.
Proof.
  induction keys as [| h t IH]; simpl; [intuition |].
  destruct (String.compare k' h) eqn:Hc; simpl.
  - apply String.compare_eq_iff in Hc. subst. intuition.
  - intuition.
  - rewrite IH. intuition.
Qed.

Lemma insert_key_sorted (k : string) (keys : list string) :
  Sorted id_lt keys -> Sorted id_lt (insert_key k keys).
Proof.
  induction 1 as [| h t Ht IH Hh]; simpl; [repeat constructor |].
  destruct (String.compare k h) eqn:Hc.
  - now constructor.
  - constructor; [now constructor |]. constructor. exact Hc.
  - constructor; [exact IH |].
    assert (Hhk : id_lt h k).
    { unfold id_lt. rewrite String.compare_antisym, Hc. reflexivity. }
    destruct t as [| h' t']; simpl; [now constructor |].
    inversion Hh as [| ? ? Hhh']; subst.
    destruct (String.compare k h'); constructor; assumption.
Qed.

Lemma sorted_keys_sorted (rows : list row) : StronglySorted id_lt (sorted_keys rows).
Proof.
  apply Sorted_StronglySorted; [exact id_lt_trans |].
  unfold sorted_keys. induction (map mover_id rows) as [| k l IH]; simpl.
  - constructor.
  - now apply insert_key_sorted.
Qed.

Lemma sorted_keys_in (k : string) (rows : list row) :
  In k (sorted_keys rows) <-> exists r, In r rows /\ mover_id r = k.
Proof.
  unfold sorted_keys. induction rows as [| r rows IH]; simpl.
  - split; [tauto | now intros [r [[] _]]].
  - rewrite insert_key_in, IH. split.
    + intros [-> | (r' & Hr' & <-)]; eauto.
    + intros (r' & [<- | Hr'] & <-); eauto.
Qed.

Lemma groupby_keys (rows : list row) : map fst (groupby rows) = sorted_keys rows.
Proof. unfold groupby. rewrite map_map. simpl. apply map_id. Qed.

Lemma groupby_in (k : string) (group_data rows : list row) :
  In (k, group_data) (groupby rows) ->
  group_data = rows_of k rows /\ group_data <> [].
Proof.
  unfold groupby. rewrite in_map_iff. intros (k' & [= <- <-] & Hk). split; [reflexivity |].
  apply sorted_keys_in in Hk as (r & Hr & Hid).
  intros E. assert (Hin : In r (rows_of k' rows)).
  { unfold rows_of. apply filter_In. split; [exact Hr |]. now apply String.eqb_eq. }
  rewrite E in Hin. destruct Hin.
Qed.

Lemma rows_of_app (k : string) (l1 l2 : list row) :
  rows_of k (l1 ++ l2) = rows_of k l1 ++ rows_of k l2.
Proof. apply filter_app. Qed.

Lemma rows_of_set_label (k : string) (v : Z) (table : list csv_row) :
  rows_of k (set_label v table)
  = set_label v (filter (fun c => String.eqb (csv_mover_id c) k) table).
Proof.
  unfold rows_of, set_label. induction table as [| c table IH]; simpl; [reflexivity |].
  destruct (String.eqb (csv_mover_id c) k); simpl; now rewrite IH.
Qed.

Lemma StronglySorted_filter {A : Type} (R : A -> A -> Prop) (f : A -> bool) (l : list A) :
  StronglySorted R l -> StronglySorted R (filter f l).
Proof.
  induction 1 as [| a l Hl IH Ha]; simpl; [constructor |].
  destruct (f a); [| exact IH]. constructor; [exact IH |].
  apply Forall_forall. intros b Hb. apply filter_In in Hb as [Hb _].
  rewrite Forall_forall in Ha. now apply Ha.
Qed.

Lemma StronglySorted_map {A B : Type} (R : B -> B -> Prop) (f : A -> B) (l : list A) :
  StronglySorted R (map f l) <-> StronglySorted (fun a b => R (f a) (f b)) l.
Proof.
  induction l as [| a l IH]; simpl; split; intros Hs; try constructor;
    inversion Hs as [| ? ? Hl Ha]; subst; try (now apply IH).
  - now rewrite Forall_map in Ha.
  - now rewrite Forall_map.
Qed.

(** ** Splitting *)





Lemma incr_at_nonneg (i : nat) (lengths : list Z) :
  Forall (fun l => 0 <= l)%Z lengths -> Forall (fun l => 0 <= l)%Z (incr_at i lengths).
Proof.
  intros Hall. revert i. induction Hall as [| l ls Hl Hls IH]; intros [| i]; simpl;
    constructor; auto. lia.
Qed.

Lemma round_robin_nonneg (remainder : Z) (lengths : list Z) :
  Forall (fun l => 0 <= l)%Z lengths ->
  Forall (fun l => 0 <= l)%Z (round_robin remainder lengths).
Proof.
  unfold round_robin. generalize (seq 0 (Z.to_nat remainder)) as steps.
  intros steps. revert lengths.
  induction steps as [| i steps IH]; intros lengths Hall; simpl; [exact Hall |].
  apply IH. now apply incr_at_nonneg.
Qed.

(** Whatever the arithmetic of the fractions, the subsets [random_split]
    returns divide the whole dataset. *)
Section SplitSizes.

Context {F : Type} `{FractionLaws F}.

Variable randperm : nat -> list nat.
Hypothesis randperm_perm : forall n, Permutation (randperm n) (seq 0 n).

Lemma fraction_lengths_nonneg (n : nat) (lengths : list F) :
  forall i ls, fraction_lengths n lengths i = Ok ls -> Forall (fun l => 0 <= l)%Z ls.
Proof.
  induction lengths as [| frac rest IH]; intros i ls; simpl.
  - intros [= <-]. constructor.
  - destruct (frac_in_unit frac) eqn:Hu; [| discriminate].
    destruct (floor_scale n frac) as [z | e] eqn:Hz; [| discriminate]. simpl.
    destruct (fraction_lengths n rest (S i)) as [ls' | e] eqn:Hr; [| discriminate].
    simpl. intros [= <-]. constructor; [| now apply (IH (S i))].
    now apply (floor_scale_nonneg n frac z).
Qed.



End SplitSizes.

#[export] Instance Q_FractionLaws : FractionLaws Q.
Proof.
  constructor. intros n f z Hu Hz.
  cbn [frac_in_unit floor_scale Q_Fraction] in Hu, Hz.
  rewrite andb_true_iff, !Qle_bool_iff in Hu. destruct Hu as [Hf _].
  injection Hz as <-.
  apply (Qfloor_resp_le 0 (inject_Z (Z.of_nat n) * f)).
  apply Qmult_le_0_compat; [| exact Hf]. rewrite <- (Zle_Qle 0). lia.
Qed.

(** *** binary64: signs *)

Lemma binary_round_aux_nonneg (m e : Z) (l : location) :
  b64_nonneg (binary_round_aux B64.prec B64.emax false m e l).
Proof.
  unfold binary_round_aux.
  destruct (shr_fexp _ _ m e l) as [mrs' e'].
  destruct (shr_fexp _ _ _ e' loc_Exact) as [mrs'' e''].
  destruct (shr_m mrs''); simpl; auto.
  destruct (Z.leb _ _); simpl; auto.
Qed.

Lemma b64_of_nat_nonneg (n : nat) : b64_nonneg (B64.of_Z (Z.of_nat n)).
Proof.
  unfold B64.of_Z, binary_normalize.
  destruct (Z.of_nat n) eqn:Hn; simpl; auto; [| lia].
  unfold binary_round. destruct (shl_align _ _ _) as [mz ez].
  apply binary_round_aux_nonneg.
Qed.

Lemma b64_mul_nonneg (x y : B64.t) :
  b64_nonneg x -> B64.ltb y (B64.of_Z 0) = false -> b64_nonneg (B64.mul x y).
Proof.
  intros Hx Hy.
  assert (Hy' : b64_nonneg y).
  { destruct y as [s | [|] | | [|] m e]; simpl; auto; discriminate. }
  destruct x as [sx | [|] | | [|] mx ex]; try contradiction;
    destruct y as [sy | [|] | | [|] my ey]; try contradiction; simpl; auto;
    try (destruct sx; simpl; auto); try (destruct sy; simpl; auto).
  all: try apply binary_round_aux_nonneg.
Qed.

Lemma b64_floor_nonneg (x : B64.t) (z : Z) :
  b64_nonneg x -> B64.floor x = Ok z -> (0 <= z)%Z.
Proof.
  intros Hx Hf. destruct x as [s | s | | s m e]; unfold B64.floor in Hf;
    try discriminate.
  - injection Hf as <-. lia.
  - destruct s; [contradiction |].
    destruct (0 <=? e)%Z eqn:He; injection Hf as <-.
    + change (0 <= Z.pos m * 2 ^ e)%Z.
      apply Z.leb_le in He. apply Z.mul_nonneg_nonneg; [lia |]. now apply Z.pow_nonneg.
    + change (0 <= Z.pos m / 2 ^ (- e))%Z.
      apply Z.leb_gt in He. apply Z.div_pos; [lia |]. apply Z.pow_pos_nonneg; lia.
Qed.

#[export] Instance B64_FractionLaws : FractionLaws B64.t.
Proof.
  constructor. intros n f z. simpl.
  rewrite negb_true_iff, orb_false_iff. intros [Hneg _] Hfloor.
  apply (b64_floor_nonneg _ z) in Hfloor; [exact Hfloor |].
  apply b64_mul_nonneg; [apply b64_of_nat_nonneg | exact Hneg].
Qed.


Section ExactSplit.

Variable n : nat.
Variables p0 p1 : Q.

Hypothesis p0_nonneg : (0 <= p0)%Q.
Hypothesis p1_nonneg : (0 <= p1)%Q.
Hypothesis sum_one : (p0 + p1 == 1)%Q.

Let N : Q := inject_Z (Z.of_nat n).

Lemma exact_sum_is_one : frac_sum_is_one [p0; p1] = true.
Proof.
  simpl. unfold Qsum; simpl.
  assert (Hs : (0 + p0 + p1 == 1)%Q) by (rewrite <- sum_one; ring).
  apply andb_true_iff. split.
  - unfold Q_isclose_1. apply Qle_bool_iff.
    assert (Hd : (Qabs (0 + p0 + p1 - 1) == 0)%Q).
    { assert (Hz : (0 + p0 + p1 - 1 == 0)%Q) by (rewrite Hs; ring).
      rewrite Hz. reflexivity. }
    rewrite Hd. apply Qmult_le_0_compat; [discriminate |].
    unfold Qmax2. destruct (Qle_bool _ 1) eqn:Hc; [discriminate |].
    apply Qabs_nonneg.
  - apply Qle_bool_iff. rewrite Hs. apply Qle_refl.
Qed.






End ExactSplit.

Section ExactLoaders.

Variable randperm : nat -> list nat.
Hypothesis randperm_perm : forall n, Permutation (randperm n) (seq 0 n).



(** The literals 0.7 and 0.3 as binary64 numbers, and their shares of ten. *)
Lemma default_split_b64_bits :
  default_split_b64
  = (S754_finite false 6305039478318694 (-53), S754_finite false 5404319552844595 (-54))
  /\ B64.mul (B64.of_Z 10) (fst default_split_b64) = B64.of_Z 7
  /\ B64.mul (B64.of_Z 10) (snd default_split_b64) = B64.of_Z 3
  /\ B64.sum [fst default_split_b64; snd default_split_b64] = B64.of_Z 1.
Proof. repeat split; vm_compute; reflexivity. Qed.


End ExactLoaders.

(** * The claims *)

(** ** Skipped movers *)

Lemma passes_false_of_bad_row (fs : file_system) (path_to_images : string)
    (image_shape : Z * Z) (mover : string) (rows : list row) (r : row) :
  In r rows ->
  frame_ok fs path_to_images image_shape r = false ->
  passes fs path_to_images image_shape (mover, rows) = false.
Proof.
  intros Hin Hr. unfold passes; simpl. apply andb_false_iff. right.
  destruct (forallb _ rows) eqn:Hall; [| reflexivity].
  rewrite forallb_forall in Hall. rewrite (Hall r Hin) in Hr. discriminate.
Qed.

(** A group that does not pass and has no unreadable file is skipped,
    with at most one line printed. *)
Lemma visit_group_fails_quietly (fs : file_system) (path_to_images : string)
    (image_shape : Z * Z) (mover : string) (rows : list row) :
  passes fs path_to_images image_shape (mover, rows) = false ->
  (forall r, In r rows -> fs (path_to_images ++ file_name r)%string <> Unreadable) ->
  exists printed,
    length printed <= 1 /\ skipped fs path_to_images image_shape (mover, rows) printed.
Proof.
  unfold passes; simpl. intros Hp Hnu.
  destruct (Nat.eq_dec (length rows) 4) as [Hlen | Hlen].
  - apply Nat.eqb_eq in Hlen as Hlenb. rewrite Hlenb in Hp. simpl in Hp.
    destruct (first_bad_row fs path_to_images image_shape rows Hp)
      as (pre & r & post & -> & Hpre & Hr).
    pose proof (visit_group_first_bad fs path_to_images image_shape
                  mover pre r post Hlen Hpre Hr) as Hv.
    assert (Hin : In r (pre ++ r :: post)) by (apply in_or_app; right; now left).
    specialize (Hnu r Hin).
    destruct (fs (path_to_images ++ file_name r)%string); [| congruence |];
      eexists; (split; [| exact Hv]); simpl; lia.
  - eexists. split; [| now apply visit_group_wrong_count]. simpl. lia.
Qed.

(** C2: a mover group whose number of rows is not 4 adds nothing to the
    three lists, prints "Skipping <mover> sequence with length: <n>", and
    the loop goes on: [get_dataset] has the same result as without the
    group, and its output is that of the run without the group with the
    line inserted where the group stood. *)
Theorem C2_wrong_count_skipped (fs : file_system) (path_to_images : string)
    (image_shape : Z * Z) (mover : string) (rows : list row)
    (pre post : list (string * list row)) :
  length rows <> 4 ->
  let line := ("Skipping " ++ mover ++ " sequence with length: "
               ++ str_of_nat (length rows))%string in
  (forall st, visit_group fs path_to_images image_shape st (mover, rows)
              = ([line], Ok st))
  /\ passes fs path_to_images image_shape (mover, rows) = false
  /\ outcome (get_dataset fs (pre ++ (mover, rows) :: post) path_to_images image_shape)
     = outcome (get_dataset fs (pre ++ post) path_to_images image_shape)
  /\ forall out1 st1,
       visit_groups fs path_to_images image_shape (mkAcc [] [] []) pre = (out1, Ok st1) ->
       exists out2,
         stdout (get_dataset fs (pre ++ post) path_to_images image_shape) = out1 ++ out2
         /\ stdout (get_dataset fs (pre ++ (mover, rows) :: post) path_to_images image_shape)
            = out1 ++ [line] ++ out2.
Proof.
  intros Hlen line.
  pose proof (visit_group_wrong_count fs path_to_images image_shape mover rows Hlen) as Hs.
  split; [exact Hs |]. split.
  - unfold passes; simpl. apply Nat.eqb_neq in Hlen. now rewrite Hlen.
  - apply (get_dataset_skip fs path_to_images image_shape (mover, rows) [line] pre post Hs).
Qed.

Lemma C2_wrong_count_skipped_witness :
  let fs := Examples.fs_const (Examples.flat_image 2 3 7) in
  outcome (get_dataset fs Examples.four_movers "img/" (1, 3)%Z)
  = outcome (get_dataset fs
               [("m1", Examples.four_rows "m1" 1); ("m2", Examples.four_rows "m2" 1);
                ("m4", Examples.four_rows "m4" 0)] "img/" (1, 3)%Z)
  /\ stdout (get_dataset fs Examples.four_movers "img/" (1, 3)%Z)
     = ["Skipping m3 sequence with length: 3"].
Proof.
  pose (fs := Examples.fs_const (Examples.flat_image 2 3 7)).
  assert (Hlen : length (snd Examples.short_mover) <> 4) by (simpl; lia).
  destruct (C2_wrong_count_skipped fs "img/" (1, 3)%Z "m3" (snd Examples.short_mover)
              [("m1", Examples.four_rows "m1" 1); ("m2", Examples.four_rows "m2" 1)]
              [("m4", Examples.four_rows "m4" 0)] Hlen) as (_ & _ & Hout & _).
  split; [exact Hout | vm_compute; reflexivity].
Defined.

(** C3 (amended): in a mover group of 4 rows with a missing image file no
    frame of the mover is kept: the group does not pass and its iteration
    leaves the three lists as they were.  Unless a file of the group is
    unreadable, the mover is skipped with at most one line printed and the
    result of [get_dataset] is that of the run without the group.  When
    the rows before the missing one all load and pass the shape test, the
    line printed is "Image of <mover> not found: <path>", between the lines
    of the movers before and after. *)
Theorem C3_missing_image_drops_mover (fs : file_system) (path_to_images : string)
    (image_shape : Z * Z) (mover : string) (rows_before : list row) (r : row)
    (rows_after : list row) :
  length (rows_before ++ r :: rows_after) = 4 ->
  fs (path_to_images ++ file_name r)%string = Missing ->
  let g := (mover, rows_before ++ r :: rows_after) in
  let line := ("Image of " ++ mover ++ " not found: "
               ++ (path_to_images ++ file_name r))%string in
  passes fs path_to_images image_shape g = false
  /\ (forall st out st',
        visit_group fs path_to_images image_shape st g = (out, Ok st') -> st' = st)
  /\ ((forall r', In r' (snd g) ->
         fs (path_to_images ++ file_name r')%string <> Unreadable) ->
      exists printed,
        length printed <= 1
        /\ (forall st, visit_group fs path_to_images image_shape st g = (printed, Ok st))
        /\ forall pre post,
             outcome (get_dataset fs (pre ++ g :: post) path_to_images image_shape)
             = outcome (get_dataset fs (pre ++ post) path_to_images image_shape))
  /\ (forallb (frame_ok fs path_to_images image_shape) rows_before = true ->
      (forall st, visit_group fs path_to_images image_shape st g = ([line], Ok st))
      /\ forall pre post,
           outcome (get_dataset fs (pre ++ g :: post) path_to_images image_shape)
           = outcome (get_dataset fs (pre ++ post) path_to_images image_shape)
           /\ forall out1 st1,
                visit_groups fs path_to_images image_shape (mkAcc [] [] []) pre
                = (out1, Ok st1) ->
                exists out2,
                  stdout (get_dataset fs (pre ++ post) path_to_images image_shape)
                  = out1 ++ out2
                  /\ stdout (get_dataset fs (pre ++ g :: post) path_to_images image_shape)
                     = out1 ++ [line] ++ out2).
Proof.
  intros Hlen Hmiss g line.
  assert (Hr : frame_ok fs path_to_images image_shape r = false).
  { unfold frame_ok. now rewrite Hmiss. }
  assert (Hp : passes fs path_to_images image_shape g = false).
  { apply (passes_false_of_bad_row _ _ _ _ _ r); [| exact Hr].
    apply in_or_app. right. now left. }
  split; [exact Hp |]. split; [| split].
  - intros st out st'. now apply visit_group_fails_ok.
  - intros Hnu.
    destruct (visit_group_fails_quietly fs path_to_images image_shape mover _ Hp Hnu)
      as (printed & Hlen1 & Hs).
    exists printed. split; [exact Hlen1 |]. split; [exact Hs |]. intros pre post.
    apply (get_dataset_skip fs path_to_images image_shape g printed pre post Hs).
  - intros Hpre.
    assert (Hs : skipped fs path_to_images image_shape g [line]).
    { intros st.
      rewrite (visit_group_first_bad fs path_to_images image_shape mover
                 rows_before r rows_after Hlen Hpre Hr).
      now rewrite Hmiss. }
    split; [exact Hs |]. intros pre post.
    apply (get_dataset_skip fs path_to_images image_shape g [line] pre post Hs).
Qed.

Lemma C3_missing_image_drops_mover_witness :
  let fs := Examples.fs_without_b (Examples.flat_image 2 3 7) in
  passes fs "img/" (1, 3)%Z ("m1", Examples.four_rows "m1" 1) = false
  /\ outcome (get_dataset fs
                 [("m1", Examples.four_rows "m1" 1);
                  ("m2", [mkRow "m2" "a.png" 0; mkRow "m2" "c.png" 0;
                          mkRow "m2" "c.png" 0; mkRow "m2" "d.png" 0])] "img/" (1, 3)%Z)
     = outcome (get_dataset fs
                  [("m2", [mkRow "m2" "a.png" 0; mkRow "m2" "c.png" 0;
                           mkRow "m2" "c.png" 0; mkRow "m2" "d.png" 0])] "img/" (1, 3)%Z)
  /\ forall st,
       visit_group fs "img/" (1, 3)%Z st ("m1", Examples.four_rows "m1" 1)
       = (["Image of m1 not found: img/b.png"], Ok st).
Proof.
  pose (fs := Examples.fs_without_b (Examples.flat_image 2 3 7)).
  destruct (C3_missing_image_drops_mover fs "img/" (1, 3)%Z "m1"
              [mkRow "m1" "a.png" 1] (mkRow "m1" "b.png" 1)
              [mkRow "m1" "c.png" 1; mkRow "m1" "d.png" 1]
              eq_refl eq_refl) as (Hp & _ & _ & Hline).
  split; [exact Hp |]. destruct (Hline eq_refl) as [Hv Hrest]. split; [| exact Hv].
  exact (proj1 (Hrest [] [("m2", [mkRow "m2" "a.png" 0; mkRow "m2" "c.png" 0;
                                  mkRow "m2" "c.png" 0; mkRow "m2" "d.png" 0])])).
Defined.

(** C3, as stated, fails: with the default [image_shape] and a 20x20 image
    in the first row, the loop breaks on the shape test before it reaches
    the missing [img/b.png], and nothing is printed. *)
Lemma C3_silent_before_missing_counterexample :
  let fs := Examples.fs_without_b (Examples.flat_image 20 20 0) in
  length (Examples.four_rows "m1" 1) = 4
  /\ fs ("img/" ++ file_name (mkRow "m1" "b.png" 1))%string = Missing
  /\ In (mkRow "m1" "b.png" 1) (Examples.four_rows "m1" 1)
  /\ stdout (get_dataset fs Examples.one_mover "img/" default_image_shape) = []
  /\ forall st, visit_group fs "img/" default_image_shape st
                  ("m1", Examples.four_rows "m1" 1) = ([], Ok st).
Proof.
  simpl. repeat split; try reflexivity. right. now left.
Qed.

(** C4 (the code at the failing input): with [image_shape = (1, 3)] four
    images 3 pixels high and 2 wide do not have the configured dimensions,
    whichever of the two entries is read as the height, and yet the mover
    passes the shape test and contributes a sample. *)
Theorem C4_mismatched_images_accepted :
  let fs := Examples.fs_const (Examples.flat_image 2 3 7) in
  let image_shape := (1, 3)%Z in
  Forall (fun r => exists im,
            fs ("img/" ++ file_name r)%string = Readable im
            /\ ~ image_matches im image_shape
            /\ ~ image_matches im (snd image_shape, fst image_shape))
         (Examples.four_rows "m1" 1)
  /\ passes fs "img/" image_shape ("m1", Examples.four_rows "m1" 1) = true
  /\ exists data_set,
       get_dataset fs Examples.one_mover "img/" image_shape = ([], Ok (data_set, ["m1"]))
       /\ ds_len data_set = 1.
Proof.
  simpl. split; [| split].
  - repeat constructor; eexists; (split; [reflexivity |]);
      unfold image_matches; simpl; split; intros [? ?]; discriminate.
  - reflexivity.
  - eexists. split; [vm_compute; reflexivity | reflexivity].
Qed.

(** ** No survivor *)






(** ** The shape test *)





(** ** Samples *)

(** C6: the dataset [get_dataset] returns has as many samples as the
    returned list of mover ids has entries, and both equal the number of
    mover groups that pass the count, load and shape checks; the i-th mover
    id is the key of the i-th such group, and the i-th sample is its
    stacked tensor with the label of its first row. *)
Theorem C6_dataset_aligned_with_mover_ids (fs : file_system)
    (movers_agg : list (string * list row)) (path_to_images : string)
    (image_shape : Z * Z) (out : list string) (data_set : TensorDataset)
    (ids : list string) :
  get_dataset fs movers_agg path_to_images image_shape = (out, Ok (data_set, ids)) ->
  let passing := filter (passes fs path_to_images image_shape) movers_agg in
  ds_len data_set = length ids
  /\ length ids = length passing
  /\ ids = map fst passing
  /\ forall i, i < length passing ->
       exists g x_tensor,
         nth_error passing i = Some g
         /\ nth_error ids i = Some (fst g)
         /\ cat (map (frame fs path_to_images) (snd g)) 2 = Ok x_tensor
         /\ ds_getitem data_set i
            = Ok ({| shape := tl (shape x_tensor); data := data x_tensor |},
                  {| shape := [1]; data := [first_label (snd g)] |}).
Proof.
  intros Hres passing.
  destruct (get_dataset_ok fs path_to_images image_shape movers_agg out data_set ids Hres)
    as (Hids & _ & _ & w & xs & _ & _ & Hshape & _).
  fold (survivors fs path_to_images image_shape movers_agg) in passing.
  assert (Hlen : length ids = length passing) by (rewrite Hids; apply length_map).
  repeat split; try assumption.
  - unfold ds_len, dim_size. rewrite Hshape. simpl. now rewrite Hlen.
  - intros i Hi.
    destruct (nth_error passing i) as [g |] eqn:Hg;
      [| apply nth_error_None in Hg; lia].
    destruct (get_dataset_samples fs path_to_images image_shape movers_agg
                out data_set ids Hres i g Hg) as (Hid & x & [_ Hx] & Hitem).
    now exists g, x.
Qed.

Lemma C6_dataset_aligned_with_mover_ids_witness :
  exists data_set,
    get_dataset (Examples.fs_const (Examples.flat_image 2 3 7)) Examples.four_movers
                "img/" (1, 3)%Z
    = (["Skipping m3 sequence with length: 3"], Ok (data_set, ["m1"; "m2"; "m4"]))
    /\ ds_len data_set = 3.
Proof.
  destruct (get_dataset (Examples.fs_const (Examples.flat_image 2 3 7))
              Examples.four_movers "img/" (1, 3)%Z) as [out r] eqn:Hrun.
  destruct r as [[data_set ids] | e]; [| vm_compute in Hrun; discriminate].
  destruct (C6_dataset_aligned_with_mover_ids _ _ _ _ out data_set ids Hrun)
    as (Hlen & _ & Hids & _).
  exists data_set.
  assert (Hout : out = ["Skipping m3 sequence with length: 3"]).
  { vm_compute in Hrun. now injection Hrun as <- _. }
  rewrite Hlen, Hids, Hout. split; reflexivity.
Defined.

(** C1 (amended): provided every file is missing or decodes and all images
    have one width, as soon as some mover group has exactly 4 rows whose
    images all load and pass the shape test, [get_dataset] returns; the
    groups that pass contribute exactly one sample each, in order, and the
    label of a sample is the label of the first row of its group; the
    dataset pairs an input tensor whose first dimension is N with a label
    tensor of shape (N, 1), N being the number of groups that pass. *)
Theorem C1_passing_groups_give_samples (fs : file_system)
    (movers_agg : list (string * list row)) (path_to_images : string)
    (image_shape : Z * Z) (width : nat) :
  (forall p, fs p <> Unreadable) ->
  (forall p im, fs p = Readable im -> img_width im = width) ->
  (exists g, In g movers_agg /\ length (snd g) = 4
             /\ forall r, In r (snd g) ->
                  exists im, fs (path_to_images ++ file_name r)%string = Readable im
                             /\ shape_differs (ToTensor im) image_shape = false) ->
  let passing := filter (passes fs path_to_images image_shape) movers_agg in
  let N := length passing in
  exists out data_set,
    get_dataset fs movers_agg path_to_images image_shape
    = (out, Ok (data_set, map fst passing))
    /\ ds_len data_set = N
    /\ dim_size 0 (ds_x data_set) = N
    /\ shape (ds_y_hat data_set) = [N; 1]
    /\ data (ds_y_hat data_set) = map (fun g => first_label (snd g)) passing
    /\ forall i g, nth_error passing i = Some g ->
         exists x y,
           ds_getitem data_set i = Ok (x, y)
           /\ cat (map (frame fs path_to_images) (snd g)) 2
              = Ok {| shape := 1 :: shape x; data := data x |}
           /\ y = {| shape := [1]; data := [first_label (snd g)] |}.
Proof.
  intros Hnu Hw (g0 & Hin & Hlen0 & Hrows) passing N.
  assert (Hp0 : passes fs path_to_images image_shape g0 = true).
  { unfold passes. rewrite Hlen0. simpl. apply forallb_forall. intros r Hr.
    destruct (Hrows r Hr) as (im & Him & Hsh). unfold frame_ok. now rewrite Him, Hsh. }
  assert (Hne : survivors fs path_to_images image_shape movers_agg <> []).
  { intros E. assert (Hg : In g0 (survivors fs path_to_images image_shape movers_agg))
      by (apply filter_In; now split).
    rewrite E in Hg. destruct Hg. }
  destruct (get_dataset_returns fs path_to_images image_shape width Hnu Hw movers_agg Hne)
    as (out & data_set & Hres).
  exists out, data_set. split; [exact Hres |].
  destruct (get_dataset_ok fs path_to_images image_shape movers_agg out data_set _ Hres)
    as (_ & _ & Hy & w & xs & _ & _ & Hshape & _).
  fold passing in Hy, Hshape. fold N in Hy, Hshape.
  unfold ds_len, dim_size. rewrite Hshape, Hy. simpl. repeat split.
  intros i g Hg.
  destruct (get_dataset_samples fs path_to_images image_shape movers_agg
              out data_set _ Hres i g Hg) as (_ & x & [Hp Hx] & Hitem).
  eexists _, _. split; [exact Hitem |]. simpl. split; [| reflexivity].
  rewrite Hx. f_equal.
  destruct (stacked_shape fs path_to_images image_shape g x Hp Hx) as (w' & Hsx & _).
  destruct x as [sx dx]. simpl in *. now subst sx.
Qed.

Lemma C1_passing_groups_give_samples_witness :
  exists out data_set,
    get_dataset (Examples.fs_const (Examples.flat_image 2 3 7)) Examples.four_movers
                "img/" (1, 3)%Z
    = (out, Ok (data_set, ["m1"; "m2"; "m4"]))
    /\ ds_len data_set = 3
    /\ shape (ds_y_hat data_set) = [3; 1]
    /\ data (ds_y_hat data_set) = [1; 1; 0]%Z.
Proof.
  pose (fs := Examples.fs_const (Examples.flat_image 2 3 7)).
  assert (Hnu : forall p, fs p <> Unreadable) by (intros p; discriminate).
  assert (Hw : forall p im, fs p = Readable im -> img_width im = 2).
  { intros p im [= <-]. reflexivity. }
  assert (Hg : exists g, In g Examples.four_movers /\ length (snd g) = 4
                         /\ forall r, In r (snd g) ->
                              exists im, fs ("img/" ++ file_name r)%string = Readable im
                                         /\ shape_differs (ToTensor im) (1, 3)%Z = false).
  { exists ("m1", Examples.four_rows "m1" 1). split; [now left |]. split; [reflexivity |].
    intros r _. eexists. split; reflexivity. }
  destruct (C1_passing_groups_give_samples fs Examples.four_movers "img/" (1, 3)%Z 2
              Hnu Hw Hg) as (out & data_set & Hres & Hlen & _ & Hys & Hyd & _).
  exists out, data_set. repeat split; assumption.
Defined.

(** C1, as stated, fails.  With the default [image_shape = (30, 30)] a
    mover of four 30x30 images yields no sample at all: the run ends in the
    error of the final concatenation.  With [image_shape = (1, 1)] and
    1x1 images, which match the configured shape, the stacked tensor has
    five dimensions, (1, 1, 4, 1, 1) instead of (1, 1, 4, 1), and the label
    tensor has shape (1, 1) instead of (1, 1, 1). *)
Lemma C1_stacked_shape_counterexample :
  (let fs := Examples.fs_const (Examples.flat_image 30 30 0) in
   length (Examples.four_rows "m1" 1) = 4
   /\ Forall (fun r => exists im,
                fs ("img/" ++ file_name r)%string = Readable im
                /\ image_matches im default_image_shape)
             (Examples.four_rows "m1" 1)
   /\ get_dataset fs Examples.one_mover "img/" default_image_shape
      = ([], Raise (RuntimeError "torch.cat(): expected a non-empty list of Tensors")))
  /\ (let fs := Examples.fs_const (Examples.flat_image 1 1 0) in
      Forall (fun r => exists im,
                fs ("img/" ++ file_name r)%string = Readable im
                /\ image_matches im (1, 1)%Z)
             (Examples.four_rows "m1" 1)
      /\ exists data_set,
           get_dataset fs Examples.one_mover "img/" (1, 1)%Z
           = ([], Ok (data_set, ["m1"]))
           /\ shape (ds_x data_set) = [1; 1; 4; 1; 1]
           /\ shape (ds_x data_set) <> [1; 1; 4 * 1; 1]
           /\ shape (ds_y_hat data_set) = [1; 1]
           /\ shape (ds_y_hat data_set) <> [1; 1; 1]).
Proof.
  split; simpl.
  - split; [reflexivity |]. split; [| reflexivity].
    repeat constructor; eexists; split; try reflexivity; split; reflexivity.
  - split.
    + repeat constructor; eexists; split; try reflexivity; split; reflexivity.
    + eexists. split; [vm_compute; reflexivity |]. simpl.
      repeat split; try reflexivity; discriminate.
Qed.

(** ** Splits *)




(** ** Labels *)

Lemma set_label_labels (v : Z) (table : list csv_row) :
  Forall (fun r => label r = v) (set_label v table).
Proof. unfold set_label. apply Forall_map, Forall_forall. now intros. Qed.

(** C8 (amended): [get_dataframe] gives label 1 to every row of
    movers_images_lookup.csv and label 0 to every row of
    rejected_movers_images_lookup.csv, pools them and groups by mover id: a
    group is the mover's rows of the first file, labelled 1, followed by
    its rows of the second file, labelled 0.  All rows of a group carry the
    same label when the mover is listed in one file only.  The label of
    the sample is read from the first row of the group. *)
Theorem C8_labels_follow_source_table (csvs : csv_store) (path_to_csvs : string)
    (real bogus : list csv_row) :
  csvs (path_to_csvs ++ "movers_images_lookup.csv")%string = Ok real ->
  csvs (path_to_csvs ++ "rejected_movers_images_lookup.csv")%string = Ok bogus ->
  let movers := set_label 1 real ++ set_label 0 bogus in
  get_dataframe csvs path_to_csvs = Ok (groupby movers)
  /\ forall k group_data, In (k, group_data) (groupby movers) ->
       let real_k := filter (fun c => String.eqb (csv_mover_id c) k) real in
       let bogus_k := filter (fun c => String.eqb (csv_mover_id c) k) bogus in
       group_data = set_label 1 real_k ++ set_label 0 bogus_k
       /\ group_data <> []
       /\ (bogus_k = [] -> Forall (fun r => label r = 1%Z) group_data)
       /\ (real_k = [] -> Forall (fun r => label r = 0%Z) group_data)
       /\ first_label group_data = match real_k with [] => 0%Z | _ :: _ => 1%Z end
       /\ forall fs path_to_images image_shape st out st',
            passes fs path_to_images image_shape (k, group_data) = true ->
            visit_group fs path_to_images image_shape st (k, group_data) = (out, Ok st') ->
            y_hat_tensors st'
            = y_hat_tensors st ++ [tensor_1x1 (first_label group_data)].
Proof.
  intros Hreal Hbogus movers. split.
  - unfold get_dataframe. rewrite Hreal. simpl. rewrite Hbogus. reflexivity.
  - intros k group_data Hin real_k bogus_k.
    destruct (groupby_in k group_data movers Hin) as [Hrows Hne].
    assert (Hsplit : group_data = set_label 1 real_k ++ set_label 0 bogus_k).
    { rewrite Hrows. unfold movers. now rewrite rows_of_app, !rows_of_set_label. }
    split; [exact Hsplit |]. split; [exact Hne |]. repeat split.
    + intros E. rewrite Hsplit, E. simpl. rewrite app_nil_r. apply set_label_labels.
    + intros E. rewrite Hsplit, E. simpl. apply set_label_labels.
    + rewrite Hsplit. destruct real_k as [| c real_k']; simpl; [| reflexivity].
      destruct bogus_k as [| c bogus_k']; simpl; [| reflexivity].
      rewrite Hsplit in Hne. now contradiction Hne.
    + intros fs path_to_images image_shape st out st' Hp Hv.
      destruct (visit_group_passes_ok fs path_to_images image_shape (k, group_data)
                  st st' out Hp Hv) as (_ & x & _ & ->).
      reflexivity.
Qed.

Lemma C8_labels_follow_source_table_witness :
  get_dataframe Examples.csvs_disjoint "data/"
  = Ok [("m1", Examples.four_rows "m1" 0); ("m2", Examples.four_rows "m2" 1)].
Proof.
  exact (proj1 (C8_labels_follow_source_table Examples.csvs_disjoint "data/" _ _
                  eq_refl eq_refl)).
Defined.

(** C8, as stated, fails: a mover listed in both files gives a group whose
    rows do not all carry the same label. *)
Lemma C8_mixed_labels_counterexample :
  get_dataframe Examples.csvs_overlap "data/"
  = Ok [("m1", [mkRow "m1" "a.png" 1; mkRow "m1" "b.png" 1;
                mkRow "m1" "c.png" 0; mkRow "m1" "d.png" 0])]
  /\ ~ (forall groups, get_dataframe Examples.csvs_overlap "data/" = Ok groups ->
        forall k group_data, In (k, group_data) groups ->
        forall r1 r2, In r1 group_data -> In r2 group_data -> label r1 = label r2).
Proof.
  split; [reflexivity |]. intros Hsame.
  specialize (Hsame _ eq_refl "m1" _ (or_introl eq_refl)
                (mkRow "m1" "a.png" 1) (mkRow "m1" "c.png" 0)).
  simpl in Hsame. assert (E : 1%Z = 0%Z) by (apply Hsame; tauto). discriminate.
Qed.

(** ** Order *)



(** * Further properties *)

(** ** Grouping keeps every row once *)

Lemma id_lt_irrefl (a : string) : ~ id_lt a a.
Proof.
  unfold id_lt. intros H.
  assert (E : String.compare a a = Eq) by (now apply String_as_OT.cmp_eq).
  congruence.
Qed.

Lemma strictly_sorted_NoDup (l : list string) : StronglySorted id_lt l -> NoDup l.
Proof.
  induction 1 as [| a l Hl IH Ha]; constructor; [| exact IH].
  intros Hin. rewrite Forall_forall in Ha. exact (id_lt_irrefl a (Ha a Hin)).
Qed.










(** ** Grouping depends on the rows mover by mover *)

Lemma strictly_sorted_ext (l1 l2 : list string) :
  StronglySorted id_lt l1 -> StronglySorted id_lt l2 ->
  (forall x, In x l1 <-> In x l2) ->
  l1 = l2.
Proof.
  intros H1. revert l2. induction H1 as [| a t1 Ht1 IH Ha]; intros l2 H2 Hext.
  - destruct l2 as [| b t2]; [reflexivity |].
    destruct (proj2 (Hext b) (or_introl eq_refl)).
  - destruct H2 as [| b t2 Ht2 Hb].
    { destruct (proj1 (Hext a) (or_introl eq_refl)). }
    rewrite Forall_forall in Ha, Hb.
    assert (Hab : a = b).
    { destruct (proj1 (Hext a) (or_introl eq_refl)) as [E | Hin]; [now symmetry |].
      destruct (proj2 (Hext b) (or_introl eq_refl)) as [E | Hin']; [exact E |].
      exfalso. apply (id_lt_irrefl a).
      apply (id_lt_trans a b a); [now apply Ha | now apply Hb]. }
    subst b. f_equal. apply IH; [exact Ht2 |].
    intros x. split; intros Hx.
    + destruct (proj1 (Hext x) (or_intror Hx)) as [E | Hin]; [| exact Hin].
      subst x. exfalso. exact (id_lt_irrefl a (Ha a Hx)).
    + destruct (proj2 (Hext x) (or_intror Hx)) as [E | Hin]; [| exact Hin].
      subst x. exfalso. exact (id_lt_irrefl a (Hb a Hx)).
Qed.

Lemma sorted_keys_rows_of (k : string) (rows : list row) :
  In k (sorted_keys rows) <-> rows_of k rows <> [].
Proof.
  rewrite sorted_keys_in. split.
  - intros (r & Hr & Hid) E.
    assert (Hin : In r (rows_of k rows)).
    { apply filter_In. split; [exact Hr | now apply String.eqb_eq]. }
    rewrite E in Hin. destruct Hin.
  - intros Hne. destruct (rows_of k rows) as [| r l] eqn:E; [congruence |].
    assert (Hin : In r (rows_of k rows)) by (rewrite E; now left).
    apply filter_In in Hin as [Hr Hid]. exists r. split; [exact Hr |].
    now apply String.eqb_eq.
Qed.

Lemma groupby_ext (rows rows' : list row) :
  (forall k, rows_of k rows = rows_of k rows') -> groupby rows = groupby rows'.
Proof.
  intros Hext. unfold groupby.
  assert (Hkeys : sorted_keys rows = sorted_keys rows').
  { apply strictly_sorted_ext; try apply sorted_keys_sorted.
    intros k. now rewrite !sorted_keys_rows_of, Hext. }
  rewrite Hkeys. apply map_ext. intros k. now rewrite Hext.
Qed.

(** X2: the result of [get_dataframe] depends on the pooled rows only
    through the sequence of rows of each mover: two pairs of tables in
    which every mover has the same rows in the same order give the same
    groups, however the rows of different movers are interleaved. *)
Theorem X2_grouping_ignores_interleaving (csvs csvs' : csv_store)
    (path_to_csvs : string) (real bogus real' bogus' : list csv_row) :
  csvs (path_to_csvs ++ "movers_images_lookup.csv")%string = Ok real ->
  csvs (path_to_csvs ++ "rejected_movers_images_lookup.csv")%string = Ok bogus ->
  csvs' (path_to_csvs ++ "movers_images_lookup.csv")%string = Ok real' ->
  csvs' (path_to_csvs ++ "rejected_movers_images_lookup.csv")%string = Ok bogus' ->
  (forall k, rows_of k (pooled real bogus) = rows_of k (pooled real' bogus')) ->
  get_dataframe csvs path_to_csvs = get_dataframe csvs' path_to_csvs.
Proof.
  intros Hr Hb Hr' Hb' Hext. unfold get_dataframe.
  rewrite Hr, Hr'. simpl. rewrite Hb, Hb'. simpl. f_equal.
  now apply groupby_ext.
Qed.

Lemma X2_grouping_ignores_interleaving_witness :
  get_dataframe MoreExamples.csvs_interleaved "data/"
  = get_dataframe MoreExamples.csvs_blocked "data/".
Proof.
  apply (X2_grouping_ignores_interleaving MoreExamples.csvs_interleaved
           MoreExamples.csvs_blocked "data/" _ _ _ _ eq_refl eq_refl eq_refl eq_refl).
  intros k. unfold pooled, rows_of. cbn -[String.eqb].
  destruct (String.eqb "m2" k) eqn:E2, (String.eqb "m1" k) eqn:E1; try reflexivity.
  apply String.eqb_eq in E1, E2. congruence.
Defined.

(** ** From the lookup tables to the labels *)

Lemma listed_filter (table : list csv_row) (k : string) :
  listed table k
  = match filter (fun c => String.eqb (csv_mover_id c) k) table with
    | [] => false
    | _ :: _ => true
    end.
Proof.
  unfold listed. induction table as [| c table IH]; simpl; [reflexivity |].
  destruct (String.eqb (csv_mover_id c) k); simpl; [reflexivity | exact IH].
Qed.

Lemma rows_of_pooled (k : string) (real bogus : list csv_row) :
  rows_of k (pooled real bogus)
  = set_label 1 (filter (fun c => String.eqb (csv_mover_id c) k) real)
    ++ set_label 0 (filter (fun c => String.eqb (csv_mover_id c) k) bogus).
Proof. unfold pooled. now rewrite rows_of_app, !rows_of_set_label. Qed.

Lemma first_label_pooled (k : string) (real bogus : list csv_row) :
  rows_of k (pooled real bogus) <> [] ->
  first_label (rows_of k (pooled real bogus)) = if listed real k then 1%Z else 0%Z.
Proof.
  rewrite rows_of_pooled, listed_filter.
  destruct (filter _ real) as [| c l]; simpl; [| reflexivity].
  destruct (filter _ bogus) as [| c l]; simpl; [congruence | reflexivity].
Qed.

Lemma survivors_in (fs : file_system) (path_to_images : string) (image_shape : Z * Z)
    (movers_agg : list (string * list row)) (g : string * list row) :
  In g (survivors fs path_to_images image_shape movers_agg) ->
  In g movers_agg /\ passes fs path_to_images image_shape g = true.
Proof. unfold survivors. apply filter_In. Qed.

(** X3: in the pipeline [get_dataset(get_dataframe(...))] the label of a
    returned sample is 1 exactly when its mover is listed in
    movers_images_lookup.csv, and 0 otherwise; no mover id is returned
    twice; and every returned mover has exactly four rows in the two
    tables together. *)
Theorem X3_pipeline_labels (csvs : csv_store) (path_to_csvs : string)
    (real bogus : list csv_row) (movers_agg : list (string * list row))
    (fs : file_system) (path_to_images : string) (image_shape : Z * Z)
    (out : list string) (data_set : TensorDataset) (ids : list string) :
  csvs (path_to_csvs ++ "movers_images_lookup.csv")%string = Ok real ->
  csvs (path_to_csvs ++ "rejected_movers_images_lookup.csv")%string = Ok bogus ->
  get_dataframe csvs path_to_csvs = Ok movers_agg ->
  get_dataset fs movers_agg path_to_images image_shape = (out, Ok (data_set, ids)) ->
  data (ds_y_hat data_set) = map (fun k => if listed real k then 1%Z else 0%Z) ids
  /\ NoDup ids
  /\ forall k, In k ids ->
       length (filter (fun c => String.eqb (csv_mover_id c) k) real)
       + length (filter (fun c => String.eqb (csv_mover_id c) k) bogus) = 4.
Proof.
  intros Hreal Hbogus Hdf Hres.
  unfold get_dataframe in Hdf. rewrite Hreal in Hdf. simpl in Hdf.
  rewrite Hbogus in Hdf. simpl in Hdf. injection Hdf as <-.
  fold (pooled real bogus) in Hres.
  destruct (get_dataset_ok fs path_to_images image_shape _ out data_set ids Hres)
    as (Hids & _ & Hy & _).
  set (sv := survivors fs path_to_images image_shape (groupby (pooled real bogus))) in *.
  assert (Hgroup : forall g, In g sv ->
            snd g = rows_of (fst g) (pooled real bogus) /\ snd g <> []
            /\ length (snd g) = 4).
  { intros [k rows] Hg. apply survivors_in in Hg as [Hin Hp].
    destruct (groupby_in k rows _ Hin) as [Hrows Hne]. simpl.
    repeat split; try assumption.
    unfold passes in Hp. simpl in Hp. apply andb_true_iff in Hp as [Hlen _].
    now apply Nat.eqb_eq. }
  split; [| split].
  - rewrite Hy, Hids. simpl. rewrite map_map. apply map_ext_in. intros g Hg.
    destruct (Hgroup g Hg) as (Hrows & Hne & _).
    rewrite Hrows in *. now apply first_label_pooled.
  - rewrite Hids. apply strictly_sorted_NoDup.
    assert (Hkeys : StronglySorted id_lt (map fst (groupby (pooled real bogus))))
      by (rewrite groupby_keys; apply sorted_keys_sorted).
    apply StronglySorted_map. unfold sv, survivors. apply StronglySorted_filter.
    apply (proj1 (StronglySorted_map id_lt fst (groupby (pooled real bogus)))).
    exact Hkeys.
  - intros k Hk. rewrite Hids in Hk. apply in_map_iff in Hk as (g & <- & Hg).
    destruct (Hgroup g Hg) as (Hrows & _ & Hlen).
    rewrite Hrows, rows_of_pooled in Hlen.
    unfold set_label in Hlen. now rewrite length_app, !length_map in Hlen.
Qed.

Lemma X3_pipeline_labels_witness :
  exists out data_set,
    get_dataset (Examples.fs_const (Examples.flat_image 2 3 7))
                [("m1", Examples.four_rows "m1" 0); ("m2", Examples.four_rows "m2" 1)]
                "img/" (1, 3)%Z
    = (out, Ok (data_set, ["m1"; "m2"]))
    /\ data (ds_y_hat data_set) = [0; 1]%Z.
Proof.
  destruct (get_dataset (Examples.fs_const (Examples.flat_image 2 3 7))
              [("m1", Examples.four_rows "m1" 0); ("m2", Examples.four_rows "m2" 1)]
              "img/" (1, 3)%Z) as [out r] eqn:Hrun.
  destruct r as [[data_set ids] | e]; [| vm_compute in Hrun; discriminate].
  assert (Hids : ids = ["m1"; "m2"]).
  { vm_compute in Hrun. now injection Hrun as _ _ <-. }
  subst ids. exists out, data_set. split; [reflexivity |].
  exact (proj1 (X3_pipeline_labels Examples.csvs_disjoint "data/" _ _ _ _ "img/" (1, 3)%Z
                  out data_set _ eq_refl eq_refl eq_refl Hrun)).
Defined.

(** ** The tensors of a returned dataset *)

Lemma frame_ok_height (fs : file_system) (path_to_images : string)
    (image_shape : Z * Z) (r : row) :
  frame_ok fs path_to_images image_shape r = true ->
  image_shape = (1%Z, Z.of_nat (Z.to_nat (snd image_shape))).
Proof.
  unfold frame_ok.
  destruct (fs (path_to_images ++ file_name r)%string) as [| | im]; try discriminate.
  rewrite shape_differs_ToTensor, negb_orb, !negb_involutive, andb_true_iff, !Z.eqb_eq.
  intros [H1 H2]. destruct image_shape as [a b]. simpl in *. subst.
  now rewrite Nat2Z.id.
Qed.

Lemma passes_shape_entries (fs : file_system) (path_to_images : string)
    (image_shape : Z * Z) (g : string * list row) :
  passes fs path_to_images image_shape g = true ->
  image_shape = (1%Z, Z.of_nat (Z.to_nat (snd image_shape))).
Proof.
  destruct g as [mover rows]. unfold passes; simpl.
  rewrite andb_true_iff, Nat.eqb_eq. intros [Hlen Hall].
  destruct rows as [| r0 rows]; [discriminate |].
  simpl in Hall. apply andb_true_iff in Hall as [H0 _].
  now apply frame_ok_height in H0.
Qed.

Lemma stacks_data (fs : file_system) (path_to_images : string) (image_shape : Z * Z)
    (sv : list (string * list row)) (xs : list tensor) :
  Forall2 (stacks fs path_to_images image_shape) sv xs ->
  flat_map data xs
  = flat_map (fun g => flat_map (fun r => data (frame fs path_to_images r)) (snd g)) sv.
Proof.
  induction 1 as [| g x sv xs [Hp Hx] _ IH]; simpl; [reflexivity |].
  destruct (stacked_shape fs path_to_images image_shape g x Hp Hx) as (_ & _ & _ & Hd & _).
  now rewrite Hd, IH.
Qed.

Lemma stacks_frames (fs : file_system) (path_to_images : string) (image_shape : Z * Z)
    (sv : list (string * list row)) (xs : list tensor) (w : nat) :
  Forall2 (stacks fs path_to_images image_shape) sv xs ->
  Forall (fun x => shape x = [1; 1; 4; Z.to_nat (snd image_shape); w] /\ tensor_wf x) xs ->
  forall g r, In g sv -> In r (snd g) ->
    shape (frame fs path_to_images r) = [1; 1; 1; Z.to_nat (snd image_shape); w].
Proof.
  induction 1 as [| g0 x sv xs [Hp Hx] _ IH]; intros Hall g r Hg Hr; [destruct Hg |].
  inversion Hall as [| ? ? [Hsx _] Hrest]; subst.
  destruct Hg as [<- | Hg]; [| now apply (IH Hrest g r)].
  destruct (stacked_shape fs path_to_images image_shape g0 x Hp Hx)
    as (w' & Hs' & Hframes & _).
  rewrite Hs' in Hsx. injection Hsx as <-.
  rewrite Forall_forall in Hframes. now apply Hframes.
Qed.

(** X4: a dataset [get_dataset] returns is never empty; [image_shape] is
    then (1, H) for a height H; the input tensor has shape (N, 1, 4, H, W)
    and the label tensor (N, 1), N being the number of mover ids returned;
    both hold as many elements as their shapes say.  The elements of the
    input tensor are the pixels of the images of the movers that pass,
    mover after mover and row after row, and each of these images is H
    pixels high and W wide. *)
Theorem X4_returned_dataset_tensors (fs : file_system)
    (movers_agg : list (string * list row)) (path_to_images : string)
    (image_shape : Z * Z) (out : list string) (data_set : TensorDataset)
    (ids : list string) :
  get_dataset fs movers_agg path_to_images image_shape = (out, Ok (data_set, ids)) ->
  let N := length ids in
  let H := Z.to_nat (snd image_shape) in
  let passing := filter (passes fs path_to_images image_shape) movers_agg in
  1 <= N
  /\ image_shape = (1%Z, Z.of_nat H)
  /\ exists W,
       shape (ds_x data_set) = [N; 1; 4; H; W]
       /\ shape (ds_y_hat data_set) = [N; 1]
       /\ tensor_wf (ds_x data_set)
       /\ tensor_wf (ds_y_hat data_set)
       /\ data (ds_x data_set)
          = flat_map (fun g => flat_map (fun r => data (frame fs path_to_images r)) (snd g))
                     passing
       /\ forall g r, In g passing -> In r (snd g) ->
            exists im,
              fs (path_to_images ++ file_name r)%string = Readable im
              /\ img_height im = H /\ img_width im = W
              /\ data (frame fs path_to_images r) = img_pixels im.
Proof.
  intros Hres N H passing.
  destruct (get_dataset_ok fs path_to_images image_shape movers_agg out data_set ids Hres)
    as (Hids & Hne & Hy & w & xs & Hst & Hxs & Hshape & Hdata).
  fold (survivors fs path_to_images image_shape movers_agg) in passing.
  fold passing in Hids, Hne, Hy, Hst, Hshape.
  assert (HN : N = length passing) by (unfold N; rewrite Hids; apply length_map).
  assert (Hentries : image_shape = (1%Z, Z.of_nat H)).
  { destruct passing as [| g0 sv] eqn:E; [congruence |].
    assert (Hin : In g0 passing) by (rewrite E; now left).
    unfold passing in Hin. apply survivors_in in Hin as [_ Hp].
    now apply passes_shape_entries in Hp. }
  split; [| split; [exact Hentries |]].
  - rewrite HN. destruct passing; [congruence | simpl; lia].
  - exists w. rewrite HN. repeat split.
    + exact Hshape.
    + now rewrite Hy.
    + unfold tensor_wf. rewrite Hshape, Hdata.
      rewrite (flat_map_length_const data (numel [1; 1; 4; H; w])).
      * rewrite <- (Forall2_length Hst). simpl. lia.
      * eapply Forall_impl; [| exact Hxs]. intros x [Hx Hwf].
        unfold tensor_wf in Hwf. now rewrite Hwf, Hx.
    + unfold tensor_wf. rewrite Hy. simpl. rewrite length_map. lia.
    + rewrite Hdata. now apply (stacks_data fs path_to_images image_shape).
    + intros g r Hg Hr.
      pose proof (stacks_frames fs path_to_images image_shape _ _ w Hst Hxs g r Hg Hr)
        as Hf.
      unfold passing in Hg. apply survivors_in in Hg as [_ Hp].
      unfold passes in Hp. apply andb_true_iff in Hp as [_ Hall].
      rewrite forallb_forall in Hall.
      destruct (frame_ok_inv fs path_to_images image_shape r (Hall r Hr))
        as (im & Him & _ & Hh & Hfr).
      exists im. rewrite Hfr in Hf. simpl in Hf. injection Hf as _ Hw.
      rewrite Hfr. repeat split; auto.
Qed.

Lemma X4_returned_dataset_tensors_witness :
  exists out data_set ids,
    get_dataset (Examples.fs_const (Examples.flat_image 2 3 7)) Examples.four_movers
                "img/" (1, 3)%Z
    = (out, Ok (data_set, ids))
    /\ exists W, shape (ds_x data_set) = [length ids; 1; 4; 3; W].
Proof.
  destruct (get_dataset (Examples.fs_const (Examples.flat_image 2 3 7))
              Examples.four_movers "img/" (1, 3)%Z) as [out r] eqn:Hrun.
  destruct r as [[data_set ids] | e]; [| vm_compute in Hrun; discriminate].
  exists out, data_set, ids. split; [reflexivity |].
  destruct (X4_returned_dataset_tensors _ _ _ _ out data_set ids Hrun)
    as (_ & _ & W & Hshape & _).
  exists W. exact Hshape.
Defined.

(** ** Runs that end in an exception *)

Lemma cat_outcome (t0 : tensor) (rest : list tensor) (dim : nat) :
  dim < length (shape t0) ->
  (exists t, cat (t0 :: rest) dim = Ok t)
  \/ cat (t0 :: rest) dim = Raise size_mismatch_error.
Proof.
  intros Hdim. unfold cat. apply Nat.ltb_lt in Hdim. rewrite Hdim. simpl.
  destruct (forallb _ rest); [left; eauto | right; reflexivity].
Qed.

Lemma cat_ok_agree (tensors : list tensor) (dim : nat) (t a b : tensor) :
  cat tensors dim = Ok t -> In a tensors -> In b tensors ->
  set_dim dim 0 (shape a) = set_dim dim 0 (shape b).
Proof.
  destruct tensors as [| t0 rest]; [discriminate |]. unfold cat.
  destruct (negb (dim <? length (shape t0))); [discriminate |].
  destruct (forallb _ rest) eqn:Hall; [| discriminate]. intros _.
  rewrite forallb_forall in Hall.
  assert (Hto : forall u, In u (t0 :: rest) ->
                  set_dim dim 0 (shape t0) = set_dim dim 0 (shape u)).
  { intros u [<- | Hu]; [reflexivity |]. now apply shape_eqb_eq, Hall. }
  intros Ha Hb. now rewrite <- (Hto a Ha), <- (Hto b Hb).
Qed.

Lemma frame_of_readable (fs : file_system) (path_to_images : string) (r : row)
    (im : image) :
  fs (path_to_images ++ file_name r)%string = Readable im ->
  shape (frame fs path_to_images r) = [1; 1; 1; img_height im; img_width im].
Proof. intros Him. unfold frame. now rewrite Him. Qed.

(** The frames of a group that passes are not accepted by [torch.cat] when
    two of its images differ in width. *)
Lemma stack_uneven (fs : file_system) (path_to_images : string) (image_shape : Z * Z)
    (g : string * list row) (r1 r2 : row) (im1 im2 : image) :
  passes fs path_to_images image_shape g = true ->
  In r1 (snd g) -> In r2 (snd g) ->
  fs (path_to_images ++ file_name r1)%string = Readable im1 ->
  fs (path_to_images ++ file_name r2)%string = Readable im2 ->
  img_width im1 <> img_width im2 ->
  cat (map (frame fs path_to_images) (snd g)) 2 = Raise size_mismatch_error.
Proof.
  intros Hp H1 H2 Him1 Him2 Hw.
  destruct (snd g) as [| r0 rows] eqn:Hrows; [destruct H1 |].
  assert (Hf0 : frame_ok fs path_to_images image_shape r0 = true).
  { unfold passes in Hp. rewrite Hrows in Hp. simpl in Hp.
    now apply andb_true_iff in Hp as [_ [Hp _]%andb_true_iff]. }
  destruct (frame_ok_inv fs path_to_images image_shape r0 Hf0) as (im0 & Him0 & _ & _ & _).
  destruct (cat_outcome (frame fs path_to_images r0) (map (frame fs path_to_images) rows) 2)
    as [[t Ht] | Hraise]; [| | exact Hraise].
  { rewrite (frame_of_readable _ _ _ _ Him0). simpl. lia. }
  exfalso. apply Hw.
  pose proof (cat_ok_agree _ 2 t (frame fs path_to_images r1) (frame fs path_to_images r2)
                Ht (in_map _ _ _ H1) (in_map _ _ _ H2)) as Hagree.
  rewrite (frame_of_readable _ _ _ _ Him1), (frame_of_readable _ _ _ _ Him2) in Hagree.
  simpl in Hagree. now injection Hagree.
Qed.

(** X5: a mover group that passes the count, load and shape checks but
    whose images differ in width is not skipped: [torch.cat] refuses its
    frames, and [get_dataset] ends there with that RuntimeError, having
    printed only the lines of the movers before it. *)
Theorem X5_uneven_widths_abort (fs : file_system) (path_to_images : string)
    (image_shape : Z * Z) (pre post : list (string * list row))
    (g : string * list row) (r1 r2 : row) (im1 im2 : image)
    (out1 : list string) (st1 : acc) :
  visit_groups fs path_to_images image_shape (mkAcc [] [] []) pre = (out1, Ok st1) ->
  passes fs path_to_images image_shape g = true ->
  In r1 (snd g) -> In r2 (snd g) ->
  fs (path_to_images ++ file_name r1)%string = Readable im1 ->
  fs (path_to_images ++ file_name r2)%string = Readable im2 ->
  img_width im1 <> img_width im2 ->
  get_dataset fs (pre ++ g :: post) path_to_images image_shape
  = (out1, Raise (RuntimeError
                    "Sizes of tensors must match except in the concatenation dimension")).
Proof.
  intros Hpre Hp H1 H2 Him1 Him2 Hw.
  pose proof (stack_uneven fs path_to_images image_shape g r1 r2 im1 im2
                Hp H1 H2 Him1 Him2 Hw) as Hcat.
  rewrite get_dataset_unfold, visit_groups_app, Hpre. simpl.
  destruct g as [mover rows].
  rewrite (visit_group_passes fs path_to_images image_shape st1 mover rows Hp).
  simpl in Hcat. rewrite Hcat. simpl. now rewrite app_nil_r.
Qed.

Lemma X5_uneven_widths_abort_witness :
  get_dataset MoreExamples.fs_two_widths
              [Examples.short_mover; MoreExamples.uneven_mover;
               ("m6", Examples.four_rows "m6" 0)] "img/" (1, 3)%Z
  = (["Skipping m3 sequence with length: 3"],
     Raise (RuntimeError
              "Sizes of tensors must match except in the concatenation dimension")).
Proof.
  apply (X5_uneven_widths_abort MoreExamples.fs_two_widths "img/" (1, 3)%Z
           [Examples.short_mover] [("m6", Examples.four_rows "m6" 0)]
           MoreExamples.uneven_mover (mkRow "m5" "a.png" 1) (mkRow "m5" "w.png" 1)
           (Examples.flat_image 2 3 7) (Examples.flat_image 5 3 9) _ (mkAcc [] [] []));
    try reflexivity.
  - simpl. tauto.
  - simpl. tauto.
  - simpl. lia.
Defined.

Lemma Forall2_in_l {A B : Type} (R : A -> B -> Prop) (l : list A) (l' : list B) (a : A) :
  Forall2 R l l' -> In a l -> exists b, In b l' /\ R a b.
Proof.
  induction 1 as [| a0 b0 l l' Hab _ IH]; intros Hin; [destruct Hin |].
  destruct Hin as [<- | Hin].
  - exists b0. split; [now left | exact Hab].
  - destruct (IH Hin) as (b & Hb & Hr). exists b. split; [now right | exact Hr].
Qed.

Section NoUnreadable.

Variable fs : file_system.
Variable path_to_images : string.
Variable image_shape : Z * Z.

Hypothesis no_unreadable : forall p, fs p <> Unreadable.

(** Without unreadable files the loop either runs to its end or stops at
    a group whose frames [torch.cat] refuses. *)
Lemma visit_groups_outcome (movers_agg : list (string * list row)) :
  forall st,
    exists out,
      (exists st', visit_groups fs path_to_images image_shape st movers_agg = (out, Ok st'))
      \/ visit_groups fs path_to_images image_shape st movers_agg
         = (out, Raise size_mismatch_error).
Proof.
  induction movers_agg as [| g rest IH]; intros st.
  - exists []. left. now exists st.
  - simpl. destruct (passes fs path_to_images image_shape g) eqn:Hp.
    + destruct g as [mover rows].
      rewrite (visit_group_passes fs path_to_images image_shape st mover rows Hp).
      destruct rows as [| r0 rows]; [discriminate |].
      assert (Hf0 : frame_ok fs path_to_images image_shape r0 = true).
      { unfold passes in Hp. simpl in Hp.
        now apply andb_true_iff in Hp as [_ [Hp _]%andb_true_iff]. }
      destruct (frame_ok_inv fs path_to_images image_shape r0 Hf0)
        as (im0 & Him0 & _ & _ & _).
      destruct (cat_outcome (frame fs path_to_images r0)
                  (map (frame fs path_to_images) rows) 2) as [[t Ht] | Hraise].
      { rewrite (frame_of_readable _ _ _ _ Him0). simpl. lia. }
      * simpl map. rewrite Ht.
        destruct (IH (push st mover t (first_label (r0 :: rows)))) as (out & [[st' Hv] | Hv]);
          exists out; unfold bind; rewrite Hv; simpl; [left; eauto | right; reflexivity].
      * simpl map. rewrite Hraise. exists []. right. reflexivity.
    + destruct (visit_group_fails_skipped fs path_to_images image_shape no_unreadable g Hp)
        as [d Hs].
      rewrite (Hs st).
      destruct (IH st) as (out & [[st' Hv] | Hv]);
        exists (d ++ out); unfold bind; rewrite Hv; simpl; [left; eauto | right; reflexivity].
Qed.

End NoUnreadable.

(** X6: the width of the images is never compared with [image_shape].
    When no file is unreadable and two images of movers that pass, of one
    mover or of two, differ in width, [get_dataset] does not return: it
    ends in the RuntimeError of a concatenation of tensors of different
    sizes. *)
Theorem X6_one_width_or_failure (fs : file_system)
    (movers_agg : list (string * list row)) (path_to_images : string)
    (image_shape : Z * Z) (g1 g2 : string * list row) (r1 r2 : row)
    (im1 im2 : image) :
  (forall p, fs p <> Unreadable) ->
  In g1 movers_agg -> passes fs path_to_images image_shape g1 = true ->
  In g2 movers_agg -> passes fs path_to_images image_shape g2 = true ->
  In r1 (snd g1) -> In r2 (snd g2) ->
  fs (path_to_images ++ file_name r1)%string = Readable im1 ->
  fs (path_to_images ++ file_name r2)%string = Readable im2 ->
  img_width im1 <> img_width im2 ->
  exists out,
    get_dataset fs movers_agg path_to_images image_shape
    = (out, Raise (RuntimeError
                     "Sizes of tensors must match except in the concatenation dimension")).
Proof.
  intros Hnu Hg1 Hp1 Hg2 Hp2 Hr1 Hr2 Him1 Him2 Hw.
  destruct (visit_groups_outcome fs path_to_images image_shape Hnu movers_agg
              (mkAcc [] [] [])) as (out & [[st Hv] | Hv]);
    exists out; rewrite get_dataset_unfold, Hv; [| reflexivity].
  destruct (visit_groups_ok fs path_to_images image_shape movers_agg _ _ _ Hv)
    as (_ & _ & xs & Hxs & Hst).
  simpl in Hxs. unfold assemble. rewrite Hxs.
  assert (Hsv1 : In g1 (survivors fs path_to_images image_shape movers_agg))
    by (apply filter_In; now split).
  assert (Hsv2 : In g2 (survivors fs path_to_images image_shape movers_agg))
    by (apply filter_In; now split).
  destruct (Forall2_in_l _ _ _ g1 Hst Hsv1) as (x1 & Hx1 & _ & Hc1).
  destruct (Forall2_in_l _ _ _ g2 Hst Hsv2) as (x2 & Hx2 & _ & Hc2).
  destruct (stacked_shape fs path_to_images image_shape g1 x1 Hp1 Hc1)
    as (w1 & Hs1 & Hf1 & _).
  destruct (stacked_shape fs path_to_images image_shape g2 x2 Hp2 Hc2)
    as (w2 & Hs2 & Hf2 & _).
  rewrite Forall_forall in Hf1, Hf2.
  pose proof (Hf1 r1 Hr1) as E1. rewrite (frame_of_readable _ _ _ _ Him1) in E1.
  pose proof (Hf2 r2 Hr2) as E2. rewrite (frame_of_readable _ _ _ _ Him2) in E2.
  injection E1 as _ E1. injection E2 as _ E2.
  destruct xs as [| x0 xs']; [destruct Hx1 |].
  destruct (cat_outcome x0 xs' 0) as [[t Ht] | Hraise].
  - pose proof (stacks_all fs path_to_images image_shape _ _ Hst) as Hall.
    inversion Hall as [| ? ? (_ & w0 & Hw0) _]; subst. rewrite Hw0. simpl. lia.
  - exfalso. apply Hw.
    pose proof (cat_ok_agree _ 0 t x1 x2 Ht Hx1 Hx2) as Hagree.
    rewrite Hs1, Hs2 in Hagree. simpl in Hagree. injection Hagree as Hagree. congruence.
  - rewrite Hraise. reflexivity.
Qed.

Lemma X6_one_width_or_failure_witness :
  exists out,
    get_dataset MoreExamples.fs_two_widths
                [("m1", Examples.four_rows "m1" 1); MoreExamples.wide_mover]
                "img/" (1, 3)%Z
    = (out, Raise (RuntimeError
                     "Sizes of tensors must match except in the concatenation dimension")).
Proof.
  apply (X6_one_width_or_failure MoreExamples.fs_two_widths _ "img/" (1, 3)%Z
           ("m1", Examples.four_rows "m1" 1) MoreExamples.wide_mover
           (mkRow "m1" "a.png" 1) (mkRow "m6" "w.png" 0)
           (Examples.flat_image 2 3 7) (Examples.flat_image 5 3 9));
    try reflexivity.
  - intros p. unfold MoreExamples.fs_two_widths.
    destruct (String.eqb p "img/w.png"); discriminate.
  - now left.
  - right. now left.
  - simpl. tauto.
  - simpl. tauto.
  - simpl. lia.
Defined.

(** X7: only a missing file is forgiven.  When the first row of a
    4-row group that does not load names a file that exists but is not an
    image, [get_dataset] ends with the error of [Image.open], having
    printed only the lines of the movers before it; the mover is not
    skipped and no later mover is visited. *)
Theorem X7_unreadable_image_aborts (fs : file_system) (path_to_images : string)
    (image_shape : Z * Z) (pre post : list (string * list row)) (mover : string)
    (rows_before : list row) (r : row) (rows_after : list row)
    (out1 : list string) (st1 : acc) :
  visit_groups fs path_to_images image_shape (mkAcc [] [] []) pre = (out1, Ok st1) ->
  length (rows_before ++ r :: rows_after) = 4 ->
  forallb (frame_ok fs path_to_images image_shape) rows_before = true ->
  fs (path_to_images ++ file_name r)%string = Unreadable ->
  get_dataset fs (pre ++ (mover, rows_before ++ r :: rows_after) :: post)
              path_to_images image_shape
  = (out1, Raise (UnidentifiedImageError (path_to_images ++ file_name r)%string)).
Proof.
  intros Hpre Hlen Hbefore Hbad.
  assert (Hr : frame_ok fs path_to_images image_shape r = false).
  { unfold frame_ok. now rewrite Hbad. }
  rewrite get_dataset_unfold, visit_groups_app, Hpre.
  cbn [bind visit_groups].
  rewrite (visit_group_first_bad fs path_to_images image_shape mover
             rows_before r rows_after Hlen Hbefore Hr), Hbad.
  simpl. now rewrite app_nil_r.
Qed.

Lemma X7_unreadable_image_aborts_witness :
  get_dataset MoreExamples.fs_broken_c
              [Examples.short_mover; ("m1", Examples.four_rows "m1" 1);
               ("m2", Examples.four_rows "m2" 1)] "img/" (1, 3)%Z
  = (["Skipping m3 sequence with length: 3"], Raise (UnidentifiedImageError "img/c.png")).
Proof.
  exact (X7_unreadable_image_aborts MoreExamples.fs_broken_c "img/" (1, 3)%Z
           [Examples.short_mover] [("m2", Examples.four_rows "m2" 1)] "m1"
           [mkRow "m1" "a.png" 1; mkRow "m1" "b.png" 1] (mkRow "m1" "c.png" 1)
           [mkRow "m1" "d.png" 1] _ (mkAcc [] [] []) eq_refl eq_refl eq_refl eq_refl).
Defined.

(** ** The files a run opens *)

Lemma load_rows_agree (fs fs' : file_system) (path_to_images : string)
    (image_shape : Z * Z) (mover : string) (rows : list row) :
  (forall before r after,
     rows = before ++ r :: after ->
     forallb (frame_ok fs path_to_images image_shape) before = true ->
     fs (path_to_images ++ file_name r)%string = fs' (path_to_images ++ file_name r)%string) ->
  forall image_tensors,
    load_rows fs path_to_images image_shape mover rows image_tensors
    = load_rows fs' path_to_images image_shape mover rows image_tensors.
Proof.
  induction rows as [| r rows IH]; intros Hagree ts; [reflexivity |].
  simpl. rewrite <- (Hagree [] r rows eq_refl eq_refl).
  destruct (fs (path_to_images ++ file_name r)%string) as [| | im] eqn:Hr; try reflexivity.
  destruct (shape_differs (ToTensor im) image_shape) eqn:Hd; [reflexivity |].
  apply IH. intros before r' after -> Hbefore.
  apply (Hagree (r :: before) r' after eq_refl). simpl.
  unfold frame_ok at 1. now rewrite Hr, Hd.
Qed.

(** X8: [get_dataset] opens no file of a mover whose group does not have
    4 rows, and in a group of 4 rows no file after the first row that fails
    to load or to pass the shape test: two file systems that agree on every
    row all of whose predecessors in its 4-row group pass give the same
    output and the same result. *)
Theorem X8_files_opened (fs fs' : file_system)
    (movers_agg : list (string * list row)) (path_to_images : string)
    (image_shape : Z * Z) :
  (forall g before r after,
     In g movers_agg -> length (snd g) = 4 ->
     snd g = before ++ r :: after ->
     forallb (frame_ok fs path_to_images image_shape) before = true ->
     fs (path_to_images ++ file_name r)%string = fs' (path_to_images ++ file_name r)%string) ->
  get_dataset fs movers_agg path_to_images image_shape
  = get_dataset fs' movers_agg path_to_images image_shape.
Proof.
  intros Hagree. unfold get_dataset. f_equal.
  generalize (mkAcc [] [] []) as st.
  induction movers_agg as [| g rest IH]; intros st; [reflexivity |].
  simpl.
  assert (Hg : visit_group fs path_to_images image_shape st g
               = visit_group fs' path_to_images image_shape st g).
  { destruct g as [mover rows]. unfold visit_group.
    destruct (length rows =? 4) eqn:Hlen; [| reflexivity]. simpl.
    rewrite (load_rows_agree fs fs' path_to_images image_shape mover rows).
    - reflexivity.
    - intros before r after Hrows Hbefore.
      apply (Hagree (mover, rows) before r after); auto; [now left |].
      now apply Nat.eqb_eq. }
  rewrite Hg. unfold bind.
  destruct (visit_group fs' path_to_images image_shape st g) as [out [st' | e]];
    [| reflexivity].
  rewrite (IH (fun g' before r after Hin => Hagree g' before r after (or_intror Hin))).
  reflexivity.
Qed.

Lemma X8_files_opened_witness :
  get_dataset (Examples.fs_const (Examples.flat_image 20 20 0))
              [Examples.short_mover; ("m1", Examples.four_rows "m1" 1)] "img/"
              default_image_shape
  = get_dataset (Examples.fs_without_b (Examples.flat_image 20 20 0))
                [Examples.short_mover; ("m1", Examples.four_rows "m1" 1)] "img/"
                default_image_shape.
Proof.
  apply X8_files_opened.
  intros g before r after [<- | [<- | []]] Hlen Hrows Hbefore; [discriminate |].
  simpl in Hrows.
  destruct before as [| b before].
  - injection Hrows as <- _. reflexivity.
  - injection Hrows as <- _. discriminate.
Defined.

(** ** The lines a run prints *)

Lemma visit_group_lines (fs : file_system) (path_to_images : string)
    (image_shape : Z * Z) (st : acc) (g : string * list row) :
  let out := fst (visit_group fs path_to_images image_shape st g) in
  Forall (line_of_group fs path_to_images g) out
  /\ length out <= (if passes fs path_to_images image_shape g then 0 else 1).
Proof.
  destruct g as [mover rows].
  destruct (Nat.eq_dec (length rows) 4) as [Hlen | Hlen].
  - destruct (forallb (frame_ok fs path_to_images image_shape) rows) eqn:Hall.
    + assert (Hp : passes fs path_to_images image_shape (mover, rows) = true).
      { unfold passes. simpl. rewrite Hall, Hlen. reflexivity. }
      rewrite Hp, (visit_group_passes fs path_to_images image_shape st mover rows Hp).
      destruct (cat _ 2); simpl; split; auto.
    + assert (Hp : passes fs path_to_images image_shape (mover, rows) = false).
      { unfold passes. simpl. rewrite Hall. apply andb_false_r. }
      rewrite Hp.
      destruct (first_bad_row fs path_to_images image_shape rows Hall)
        as (before & r & after & -> & Hbefore & Hr).
      rewrite (visit_group_first_bad fs path_to_images image_shape mover before r after
                 Hlen Hbefore Hr).
      destruct (fs (path_to_images ++ file_name r)%string) eqn:Hfs; simpl; split; auto.
      constructor; [| constructor]. right. split; [exact Hlen |].
      exists r. repeat split; auto. simpl. apply in_or_app. right. now left.
  - assert (Hp : passes fs path_to_images image_shape (mover, rows) = false).
    { unfold passes. simpl. apply Nat.eqb_neq in Hlen. now rewrite Hlen. }
    rewrite Hp, (visit_group_wrong_count fs path_to_images image_shape mover rows Hlen st).
    simpl. split; [| lia]. constructor; [| constructor]. left. now split.
Qed.

Lemma visit_groups_lines (fs : file_system) (path_to_images : string)
    (image_shape : Z * Z) (movers_agg : list (string * list row)) :
  forall st,
    let out := fst (visit_groups fs path_to_images image_shape st movers_agg) in
    Forall (fun line => exists g,
              In g movers_agg
              /\ passes fs path_to_images image_shape g = false
              /\ line_of_group fs path_to_images g line) out
    /\ length out + length (filter (passes fs path_to_images image_shape) movers_agg)
       <= length movers_agg.
Proof.
  induction movers_agg as [| g rest IH]; intros st; [simpl; split; auto |].
  destruct (visit_group_lines fs path_to_images image_shape st g) as [Hlines Hcount].
  cbn [visit_groups]. unfold bind.
  destruct (visit_group fs path_to_images image_shape st g) as [o r] eqn:Hg.
  cbn [fst] in Hlines, Hcount.
  assert (Hhere : Forall (fun line => exists g0,
                     In g0 (g :: rest)
                     /\ passes fs path_to_images image_shape g0 = false
                     /\ line_of_group fs path_to_images g0 line) o).
  { destruct (passes fs path_to_images image_shape g) eqn:Hp.
    - destruct o; [constructor | simpl in Hcount; lia].
    - eapply Forall_impl; [| exact Hlines]. intros line Hl. exists g.
      split; [now left | now split]. }
  destruct r as [st' | e].
  - destruct (IH st') as [Hrest Hcount'].
    cbn [fst filter]. split.
    + apply Forall_app. split; [exact Hhere |].
      eapply Forall_impl; [| exact Hrest]. intros line (g0 & Hin & Hp0 & Hl).
      exists g0. split; [now right | now split].
    + rewrite length_app.
      destruct (passes fs path_to_images image_shape g); simpl in *; lia.
  - cbn [fst filter]. split; [exact Hhere |].
    pose proof (filter_length_le (passes fs path_to_images image_shape) rest) as Hle.
    destruct (passes fs path_to_images image_shape g); simpl in *; lia.
Qed.

(** X9: [get_dataset] prints at most one line for each mover group that
    does not pass and none for a group that passes.  Every line printed is
    either "Skipping <mover> sequence with length: <n>" for a group of
    n <> 4 rows, or "Image of <mover> not found: <path>" for a row of a
    4-row group whose file is missing. *)
Theorem X9_printed_lines (fs : file_system) (movers_agg : list (string * list row))
    (path_to_images : string) (image_shape : Z * Z) :
  let out := stdout (get_dataset fs movers_agg path_to_images image_shape) in
  Forall (fun line => exists g,
            In g movers_agg
            /\ passes fs path_to_images image_shape g = false
            /\ line_of_group fs path_to_images g line) out
  /\ length out + length (filter (passes fs path_to_images image_shape) movers_agg)
     <= length movers_agg.
Proof.
  intros out.
  assert (E : out = fst (visit_groups fs path_to_images image_shape (mkAcc [] [] [])
                           movers_agg)).
  { unfold out, stdout. rewrite get_dataset_unfold.
    now destruct (visit_groups _ _ _ _ _) as [o [st | e]]. }
  rewrite E. apply visit_groups_lines.
Qed.

(** ** One grouping after another *)

Lemma acc_app_nil_r (st : acc) : acc_app st (mkAcc [] [] []) = st.
Proof. destruct st. unfold acc_app. simpl. now rewrite !app_nil_r. Qed.

Lemma acc_app_assoc (a b c : acc) : acc_app (acc_app a b) c = acc_app a (acc_app b c).
Proof. unfold acc_app. simpl. now rewrite !app_assoc. Qed.

Section Shift.

Variable fs : file_system.
Variable path_to_images : string.
Variable image_shape : Z * Z.

(** An iteration only appends to the three lists. *)
Lemma visit_group_shift (st : acc) (g : string * list row) :
  visit_group fs path_to_images image_shape st g
  = match visit_group fs path_to_images image_shape (mkAcc [] [] []) g with
    | (out, Ok st0) => (out, Ok (acc_app st st0))
    | (out, Raise e) => (out, Raise e)
    end.
Proof.
  destruct g as [mover rows]. unfold visit_group.
  destruct (negb (length rows =? 4)).
  - simpl. now rewrite acc_app_nil_r.
  - unfold bind.
    destruct (load_rows fs path_to_images image_shape mover rows [])
      as [out [[image_tensors |] | e]]; simpl; try reflexivity.
    + destruct (cat image_tensors 2) as [x | e]; simpl; [| reflexivity].
      destruct (label_iloc0 rows) as [y | e]; simpl; reflexivity.
    + now rewrite acc_app_nil_r.
Qed.

Lemma visit_groups_shift (movers_agg : list (string * list row)) :
  forall st,
    visit_groups fs path_to_images image_shape st movers_agg
    = match visit_groups fs path_to_images image_shape (mkAcc [] [] []) movers_agg with
      | (out, Ok st0) => (out, Ok (acc_app st st0))
      | (out, Raise e) => (out, Raise e)
      end.
Proof.
  induction movers_agg as [| g rest IH]; intros st.
  - simpl. unfold ret. now rewrite acc_app_nil_r.
  - cbn [visit_groups]. rewrite (visit_group_shift st g). unfold bind.
    destruct (visit_group fs path_to_images image_shape (mkAcc [] [] []) g)
      as [o [s0 | e]]; [| reflexivity].
    rewrite (IH (acc_app st s0)), (IH s0).
    destruct (visit_groups fs path_to_images image_shape (mkAcc [] [] []) rest)
      as [o1 [s1 | e]]; simpl; [| reflexivity].
    now rewrite acc_app_assoc.
Qed.

End Shift.

(** Concatenation along dimension 0 of two lists that [torch.cat] accepts
    and whose results agree beyond dimension 0. *)
Lemma cat_app_dim0 (l1 l2 : list tensor) (t1 t2 : tensor) :
  cat l1 0 = Ok t1 -> cat l2 0 = Ok t2 ->
  tl (shape t1) = tl (shape t2) ->
  cat (l1 ++ l2) 0
  = Ok {| shape := (dim_size 0 t1 + dim_size 0 t2) :: tl (shape t1);
          data := data t1 ++ data t2 |}.
Proof.
  destruct l1 as [| a r1]; [discriminate |]. destruct l2 as [| b r2]; [discriminate |].
  unfold cat at 1 2.
  destruct (shape a) as [| da sa] eqn:Ha; [discriminate |].
  destruct (shape b) as [| db sb] eqn:Hb; [discriminate |].
  cbn [length Nat.ltb Nat.leb negb].
  destruct (forallb (fun t => shapes_agree 0 (da :: sa) (shape t)) r1) eqn:H1; [| discriminate].
  destruct (forallb (fun t => shapes_agree 0 (db :: sb) (shape t)) r2) eqn:H2; [| discriminate].
  intros [= <-] [= <-]. cbn [shape data set_dim tl firstn numel fold_right seq flat_map].
  intros Htl. subst sb. rewrite !app_nil_r.
  unfold cat. cbn [app]. rewrite Ha. cbn [length Nat.ltb Nat.leb negb].
  assert (Hall : forallb (fun t => shapes_agree 0 (da :: sa) (shape t)) (r1 ++ b :: r2) = true).
  { rewrite forallb_app, H1. cbn [forallb andb]. apply andb_true_iff. split.
    - rewrite Hb. unfold shapes_agree. simpl. apply shape_eqb_eq. reflexivity.
    - rewrite forallb_forall in H2. apply forallb_forall. intros u Hu.
      specialize (H2 u Hu). unfold shapes_agree in *. exact H2. }
  rewrite Hall. cbn [set_dim firstn numel fold_right seq flat_map]. rewrite app_nil_r.
  f_equal. f_equal.
  - unfold dim_size at 3 4. cbn [shape nth].
    change (a :: r1 ++ b :: r2) with ((a :: r1) ++ b :: r2).
    now rewrite map_app, list_sum_app.
  - rewrite flat_map_app, <- app_assoc. reflexivity.
Qed.

(** X10: [get_dataset] on one grouping followed by another.  When it
    returns on each and the two input tensors agree beyond their first
    dimension, it returns on the two together: what it prints, the mover
    ids, the elements of the input tensor and the labels are those of the
    first run followed by those of the second, and the number of samples is
    the sum. *)
Theorem X10_get_dataset_append (fs : file_system) (path_to_images : string)
    (image_shape : Z * Z) (l1 l2 : list (string * list row))
    (out1 out2 : list string) (d1 d2 : TensorDataset) (ids1 ids2 : list string) :
  get_dataset fs l1 path_to_images image_shape = (out1, Ok (d1, ids1)) ->
  get_dataset fs l2 path_to_images image_shape = (out2, Ok (d2, ids2)) ->
  tl (shape (ds_x d1)) = tl (shape (ds_x d2)) ->
  get_dataset fs (l1 ++ l2) path_to_images image_shape
  = (out1 ++ out2,
     Ok ({| ds_x := {| shape := (ds_len d1 + ds_len d2) :: tl (shape (ds_x d1));
                       data := data (ds_x d1) ++ data (ds_x d2) |};
            ds_y_hat := {| shape := [ds_len d1 + ds_len d2; 1];
                           data := data (ds_y_hat d1) ++ data (ds_y_hat d2) |} |},
         ids1 ++ ids2)).
Proof.
  intros H1 H2 Htl.
  pose proof (get_dataset_ok fs path_to_images image_shape l1 out1 d1 ids1 H1)
    as (_ & _ & Hy1 & _).
  pose proof (get_dataset_ok fs path_to_images image_shape l2 out2 d2 ids2 H2)
    as (_ & _ & Hy2 & _).
  rewrite get_dataset_unfold in H1, H2.
  destruct (visit_groups fs path_to_images image_shape (mkAcc [] [] []) l1)
    as [o1 [s1 | e]] eqn:Hv1; [| discriminate].
  destruct (visit_groups fs path_to_images image_shape (mkAcc [] [] []) l2)
    as [o2 [s2 | e]] eqn:Hv2; [| discriminate].
  injection H1 as <- Ha1. injection H2 as <- Ha2.
  unfold assemble in Ha1, Ha2.
  destruct (cat (x_tensors s1) 0) as [x1 | e] eqn:Hx1; [| discriminate].
  destruct (cat (y_hat_tensors s1) 0) as [y1 | e] eqn:Hyc1; [| discriminate].
  destruct (cat (x_tensors s2) 0) as [x2 | e] eqn:Hx2; [| discriminate].
  destruct (cat (y_hat_tensors s2) 0) as [y2 | e] eqn:Hyc2; [| discriminate].
  simpl in Ha1, Ha2. unfold new_TensorDataset in Ha1, Ha2.
  destruct (dim_size 0 x1 =? dim_size 0 y1) eqn:Hd1; [| discriminate].
  destruct (dim_size 0 x2 =? dim_size 0 y2) eqn:Hd2; [| discriminate].
  injection Ha1 as <- <-. injection Ha2 as <- <-.
  apply Nat.eqb_eq in Hd1, Hd2. simpl in Htl, Hy1, Hy2. unfold ds_len. simpl.
  assert (Ht1 : tl (shape y1) = [1]) by (rewrite Hy1; reflexivity).
  assert (Ht2 : tl (shape y2) = [1]) by (rewrite Hy2; reflexivity).
  clear Hy1 Hy2.
  rewrite get_dataset_unfold, visit_groups_app, Hv1. cbn [bind].
  rewrite (visit_groups_shift fs path_to_images image_shape l2 s1), Hv2. cbn [fst snd].
  unfold assemble, acc_app. cbn [x_tensors y_hat_tensors mover_ids].
  rewrite (cat_app_dim0 _ _ x1 x2 Hx1 Hx2 Htl). cbn [rbind].
  rewrite (cat_app_dim0 _ _ y1 y2 Hyc1 Hyc2) by congruence.
  cbn [rbind]. unfold new_TensorDataset, dim_size in *. cbn [shape nth].
  rewrite Hd1, Hd2, Nat.eqb_refl, Ht1. reflexivity.
Qed.

Lemma X10_get_dataset_append_witness :
  exists data_set,
    get_dataset (Examples.fs_const (Examples.flat_image 2 3 7))
                ([("m1", Examples.four_rows "m1" 1)]
                 ++ [Examples.short_mover; ("m4", Examples.four_rows "m4" 0)])
                "img/" (1, 3)%Z
    = (["Skipping m3 sequence with length: 3"], Ok (data_set, ["m1"; "m4"]))
    /\ shape (ds_x data_set) = [2; 1; 4; 3; 2]
    /\ data (ds_y_hat data_set) = [1; 0]%Z.
Proof.
  pose (fs := Examples.fs_const (Examples.flat_image 2 3 7)).
  destruct (get_dataset fs [("m1", Examples.four_rows "m1" 1)] "img/" (1, 3)%Z)
    as [o1 r1] eqn:H1.
  destruct r1 as [[d1 i1] | e]; [| vm_compute in H1; discriminate].
  destruct (get_dataset fs [Examples.short_mover; ("m4", Examples.four_rows "m4" 0)]
              "img/" (1, 3)%Z) as [o2 r2] eqn:H2.
  destruct r2 as [[d2 i2] | e]; [| vm_compute in H2; discriminate].
  assert (E1 : o1 = [] /\ i1 = ["m1"] /\ shape (ds_x d1) = [1; 1; 4; 3; 2]
               /\ data (ds_y_hat d1) = [1%Z]).
  { vm_compute in H1. injection H1 as <- <- <-. repeat split. }
  assert (E2 : o2 = ["Skipping m3 sequence with length: 3"] /\ i2 = ["m4"]
               /\ shape (ds_x d2) = [1; 1; 4; 3; 2] /\ data (ds_y_hat d2) = [0%Z]).
  { vm_compute in H2. injection H2 as <- <- <-. repeat split. }
  destruct E1 as (-> & -> & Hs1 & Hl1). destruct E2 as (-> & -> & Hs2 & Hl2).
  assert (Htl : tl (shape (ds_x d1)) = tl (shape (ds_x d2))) by now rewrite Hs1, Hs2.
  eexists. split.
  - exact (X10_get_dataset_append fs "img/" (1, 3)%Z _ _ _ _ d1 d2 _ _ H1 H2 Htl).
  - simpl. unfold ds_len, dim_size. rewrite Hs1, Hs2, Hl1, Hl2. split; reflexivity.
Defined.

(** ** The two subsets *)

Lemma firstn_add_skipn {A : Type} (a b : nat) (l : list A) :
  firstn a l ++ firstn b (skipn a l) = firstn (a + b) l.
Proof.
  revert l. induction a as [| a IH]; intros l; [reflexivity |].
  destruct l as [| x l]; simpl.
  - now rewrite firstn_nil.
  - now rewrite IH.
Qed.

Lemma skipn_add {A : Type} (a b : nat) (l : list A) :
  skipn (a + b) l = skipn b (skipn a l).
Proof.
  revert l. induction a as [| a IH]; intros l; [reflexivity |].
  destruct l as [| x l]; simpl; [now rewrite skipn_nil | apply IH].
Qed.

Lemma Zsum_nonneg (lengths : list Z) :
  Forall (fun l => 0 <= l)%Z lengths -> (0 <= Zsum lengths)%Z.
Proof. induction 1; simpl; lia. Qed.

(** The slices laid end to end are one stretch of the indices. *)
Lemma slices_concat (indices : list nat) (lengths : list Z) :
  Forall (fun l => 0 <= l)%Z lengths ->
  forall start, (0 <= start)%Z ->
    concat (slices indices start lengths)
    = firstn (Z.to_nat (Zsum lengths)) (skipn (Z.to_nat start) indices).
Proof.
  induction 1 as [| l ls Hl Hls IH]; intros start Hstart; simpl; [reflexivity |].
  pose proof (Zsum_nonneg ls Hls) as Hsum.
  rewrite (IH (start + l)%Z) by lia.
  rewrite !Z2Nat.inj_add by lia.
  rewrite skipn_add. apply firstn_add_skipn.
Qed.

Section Partition.

Context {F : Type} `{FractionLaws F}.

Variable randperm : nat -> list nat.
Hypothesis randperm_perm : forall n, Permutation (randperm n) (seq 0 n).

Lemma random_split_partition (dataset : TensorDataset) (lengths : list F)
    (subsets : list Subset) :
  random_split randperm dataset lengths = Ok subsets ->
  concat (map subset_indices subsets) = randperm (ds_len dataset)
  /\ Forall (fun s => subset_dataset s = dataset) subsets.
Proof.
  unfold random_split.
  destruct (frac_sum_is_one lengths);
    [| destruct (negb (frac_sum_eq lengths (ds_len dataset))); discriminate].
  destruct (fraction_lengths (ds_len dataset) lengths 0) as [fl | e] eqn:Hfl;
    [| discriminate].
  simpl.
  set (ls := round_robin (Z.of_nat (ds_len dataset) - Zsum fl) fl).
  destruct (Zsum ls =? Z.of_nat (ds_len dataset))%Z eqn:Hsum; [| discriminate].
  simpl. intros [= <-]. apply Z.eqb_eq in Hsum.
  assert (Hnn : Forall (fun l => 0 <= l)%Z ls).
  { apply round_robin_nonneg.
    exact (fraction_lengths_nonneg (ds_len dataset) lengths 0 fl Hfl). }
  split.
  - rewrite map_map. simpl. rewrite map_id.
    rewrite (slices_concat _ ls Hnn 0) by lia.
    rewrite Hsum, Nat2Z.id. simpl.
    apply firstn_all2.
    rewrite (Permutation_length (randperm_perm _)), length_seq. lia.
  - apply Forall_map, Forall_forall. now intros.
Qed.

Lemma get_loaders_partition (data_set : TensorDataset) (split : F * F) (batch_size : Z)
    (train_loader : DataLoader) (val_data_set : Subset) :
  get_loaders randperm data_set split batch_size = Ok (train_loader, val_data_set) ->
  subset_indices (dl_dataset train_loader) ++ subset_indices val_data_set
  = randperm (ds_len data_set)
  /\ subset_dataset (dl_dataset train_loader) = data_set
  /\ subset_dataset val_data_set = data_set
  /\ dl_batch_size train_loader = batch_size
  /\ dl_shuffle train_loader = true.
Proof.
  unfold get_loaders.
  destruct (random_split randperm data_set [fst split; snd split]) as [subsets | e] eqn:Hrs;
    [| discriminate].
  apply random_split_partition in Hrs as [Hcat Hds]. simpl.
  destruct subsets as [| tr [| va [| ? ?]]]; try discriminate.
  intros [= <- <-]. simpl in *. rewrite app_nil_r in Hcat.
  inversion Hds as [| ? ? Htr Hrest]; subst. inversion Hrest as [| ? ? Hva _]; subst.
  repeat split; assumption.
Qed.

(** X11: the training and validation subsets [get_loaders] returns divide
    the dataset: their indices, training first, are the permutation drawn,
    so every sample is in exactly one of the two and in it once.  Both
    refer to the dataset that was passed, and the loader holds the batch
    size that was passed and shuffles. *)
Theorem X11_split_is_a_partition (data_set : TensorDataset) (split : F * F)
    (batch_size : Z) (train_loader : DataLoader) (val_data_set : Subset) :
  get_loaders randperm data_set split batch_size = Ok (train_loader, val_data_set) ->
  let train := subset_indices (dl_dataset train_loader) in
  let val := subset_indices val_data_set in
  train ++ val = randperm (ds_len data_set)
  /\ Permutation (train ++ val) (seq 0 (ds_len data_set))
  /\ NoDup (train ++ val)
  /\ (forall i, In i train -> ~ In i val)
  /\ (forall i, i < ds_len data_set <-> In i train \/ In i val)
  /\ subset_dataset (dl_dataset train_loader) = data_set
  /\ subset_dataset val_data_set = data_set
  /\ dl_batch_size train_loader = batch_size
  /\ dl_shuffle train_loader = true.
Proof.
  intros Hres train val.
  destruct (get_loaders_partition data_set split batch_size train_loader val_data_set Hres)
    as (Hcat & Htr & Hva & Hb & Hs).
  fold train val in Hcat.
  assert (Hperm : Permutation (train ++ val) (seq 0 (ds_len data_set)))
    by (rewrite Hcat; apply randperm_perm).
  assert (Hnd : NoDup (train ++ val)).
  { apply (Permutation_NoDup (Permutation_sym Hperm)), seq_NoDup. }
  repeat split; try assumption.
  - intros i Hi Hv. apply NoDup_app_remove_l in Hnd as Hnv.
    clear - Hnd Hi Hv. induction train as [| a t IH]; [destruct Hi |].
    simpl in Hnd. inversion Hnd as [| ? ? Hna Hnd']; subst.
    destruct Hi as [-> | Hi]; [| now apply IH].
    apply Hna, in_or_app. now right.
  - intros Hi. apply in_app_or, (Permutation_in _ (Permutation_sym Hperm)), in_seq. lia.
  - intros Hi. apply in_or_app in Hi. apply (Permutation_in _ Hperm), in_seq in Hi. lia.
Qed.

End Partition.

Lemma X11_split_is_a_partition_witness :
  exists train_loader val_data_set,
    get_loaders Examples.randperm_id (Examples.dataset_of_size 10) default_split_b64
                default_batch_size
    = Ok (train_loader, val_data_set)
    /\ subset_indices (dl_dataset train_loader) ++ subset_indices val_data_set
       = seq 0 10.
Proof.
  destruct (get_loaders Examples.randperm_id (Examples.dataset_of_size 10)
              default_split_b64 default_batch_size) as [[loader val] | e] eqn:Hres;
    [| vm_compute in Hres; discriminate].
  exists loader, val. split; [reflexivity |].
  assert (Hperm : forall n, Permutation (Examples.randperm_id n) (seq 0 n))
    by (intros n; apply Permutation_refl).
  exact (proj1 (X11_split_is_a_partition Examples.randperm_id Hperm _ _ _ loader val Hres)).
Defined.

(** ** Fractions outside the unit interval *)

(** X12: for exact fractions that sum to 1, [get_loaders] raises exactly
    when one of the two is negative, and the error then always names the
    first fraction: a negative second fraction makes the first exceed 1,
    which is found first. *)
Theorem X12_fraction_out_of_range (randperm : nat -> list nat)
    (data_set : TensorDataset) (p0 p1 : Q) (batch_size : Z) :
  (p0 + p1 == 1)%Q ->
  ~ ((0 <= p0)%Q /\ (0 <= p1)%Q) ->
  get_loaders randperm data_set (p0, p1) batch_size
  = Raise (ValueError "Fraction at index 0 is not between 0 and 1").
Proof.
  intros Hsum Hneg.
  pose proof (exact_sum_is_one p0 p1 Hsum) as Hone.
  assert (Hu : frac_in_unit p0 = false).
  { cbn [frac_in_unit Q_Fraction].
    destruct (Qle_bool 0 p0) eqn:H0; [| reflexivity].
    destruct (Qle_bool p0 1) eqn:H1; [| reflexivity].
    apply Qle_bool_iff in H0, H1. exfalso. apply Hneg. split; [exact H0 | lra]. }
  unfold get_loaders, random_split. cbn [fst snd]. rewrite Hone.
  cbn [fraction_lengths]. rewrite Hu. reflexivity.
Qed.

Lemma X12_fraction_out_of_range_witness :
  get_loaders Examples.randperm_id (Examples.dataset_of_size 10)
              ((3 # 2)%Q, (- 1 # 2)%Q) default_batch_size
  = Raise (ValueError "Fraction at index 0 is not between 0 and 1").
Proof.
  apply X12_fraction_out_of_range.
  - reflexivity.
  - intros [_ H1]. apply (Qle_bool_iff 0 (- 1 # 2)) in H1. discriminate.
Defined.

(** ** The size of the validation subset *)




(** ** From the dataset to the subsets *)

(** X14: the two functions compose.  Every index of the training and
    validation subsets that [get_loaders] makes of a dataset returned by
    [get_dataset] fetches a sample of that dataset: the stacked tensor of
    a mover group that passes, with the label of its first row, and the
    mover id at that index is the key of that group. *)
Theorem X14_subsets_index_the_samples {F : Type} `{FractionLaws F}
    (fs : file_system) (movers_agg : list (string * list row))
    (path_to_images : string) (image_shape : Z * Z) (out : list string)
    (data_set : TensorDataset) (ids : list string)
    (randperm : nat -> list nat) (split : F * F) (batch_size : Z)
    (train_loader : DataLoader) (val_data_set : Subset) :
  (forall n, Permutation (randperm n) (seq 0 n)) ->
  get_dataset fs movers_agg path_to_images image_shape = (out, Ok (data_set, ids)) ->
  get_loaders randperm data_set split batch_size = Ok (train_loader, val_data_set) ->
  forall i,
    In i (subset_indices (dl_dataset train_loader) ++ subset_indices val_data_set) ->
    exists g x_tensor,
      nth_error (filter (passes fs path_to_images image_shape) movers_agg) i = Some g
      /\ nth_error ids i = Some (fst g)
      /\ cat (map (frame fs path_to_images) (snd g)) 2 = Ok x_tensor
      /\ ds_getitem (subset_dataset val_data_set) i
         = Ok ({| shape := tl (shape x_tensor); data := data x_tensor |},
               {| shape := [1]; data := [first_label (snd g)] |})
      /\ subset_dataset (dl_dataset train_loader) = subset_dataset val_data_set.
Proof.
  intros Hperm Hds Hld i Hi.
  destruct (get_loaders_partition randperm Hperm data_set split batch_size
              train_loader val_data_set Hld) as (Hcat & Htr & Hva & _).
  rewrite Hcat in Hi. apply (Permutation_in _ (Hperm _)), in_seq in Hi.
  destruct (get_dataset_ok fs path_to_images image_shape movers_agg out data_set ids Hds)
    as (_ & _ & _ & w & xs & _ & _ & Hshape & _).
  assert (Hlt : i < length (survivors fs path_to_images image_shape movers_agg)).
  { unfold ds_len, dim_size in Hi. rewrite Hshape in Hi. simpl in Hi. lia. }
  destruct (nth_error (survivors fs path_to_images image_shape movers_agg) i)
    as [g |] eqn:Hg; [| apply nth_error_None in Hg; lia].
  destruct (get_dataset_samples fs path_to_images image_shape movers_agg
              out data_set ids Hds i g Hg) as (Hid & x & [_ Hx] & Hitem).
  exists g, x. rewrite Htr, Hva. repeat split; assumption.
Qed.

Lemma X14_subsets_index_the_samples_witness :
  exists out data_set ids train_loader val_data_set,
    get_dataset (Examples.fs_const (Examples.flat_image 2 3 7)) Examples.four_movers
                "img/" (1, 3)%Z
    = (out, Ok (data_set, ids))
    /\ get_loaders Examples.randperm_id data_set default_split_b64 default_batch_size
       = Ok (train_loader, val_data_set)
    /\ exists g : string * list row, nth_error ids 2 = Some (fst g).
Proof.
  destruct (get_dataset (Examples.fs_const (Examples.flat_image 2 3 7))
              Examples.four_movers "img/" (1, 3)%Z) as [out r] eqn:Hds.
  destruct r as [[data_set ids] | e]; [| vm_compute in Hds; discriminate].
  destruct (get_loaders Examples.randperm_id data_set default_split_b64
              default_batch_size) as [[loader val] | e] eqn:Hld.
  - exists out, data_set, ids, loader, val. split; [reflexivity |]. split; [exact Hld |].
    assert (Hperm : forall n, Permutation (Examples.randperm_id n) (seq 0 n))
      by (intros n; apply Permutation_refl).
    assert (Hin : In 2 (subset_indices (dl_dataset loader) ++ subset_indices val)).
    { vm_compute in Hds. injection Hds as _ <- _.
      vm_compute in Hld. injection Hld as <- <-. simpl. tauto. }
    destruct (X14_subsets_index_the_samples _ _ _ _ out data_set ids
                Examples.randperm_id default_split_b64 default_batch_size loader val
                Hperm Hds Hld 2 Hin) as (g & _ & _ & Hid & _).
    now exists g.
  - exfalso. vm_compute in Hds. injection Hds as _ <- _. vm_compute in Hld. discriminate.
Defined.
